(** * Traverser-MIM: the verse drawing application

    A shallow embedding of [src/database.py] and of the endpoints of
    [src/app.py] that the specification talks about, followed by the
    properties of the specification stated and proved over it.

    Conventions of the embedding.
    - A Python [str] is a [string]; one character stands for one code
      point below 256, and [str.lower], [str.strip] and the character
      classes of the validation pattern are written out on that range.
      Texts that the code only stores and hands back (the sample verses,
      the messages of the answers) are written as they are in the source.
    - The database is an explicit [Store] value threaded through every
      function; a function that can raise returns a [result].  An exception
      leaves the transaction uncommitted: the tables are as before.
    - The module-level switch [USE_POSTGRES] is a boolean argument.  It
      decides whether the [FOREIGN KEY] clause of [user_draws] is enforced
      (PostgreSQL always does; SQLite does not unless the connection issues
      [PRAGMA foreign_keys = ON], which [get_connection] never does) and
      whether a rejected insert still consumes a value of the id sequence
      (PostgreSQL's [SERIAL] does, SQLite's [AUTOINCREMENT] does not).
    - [CURRENT_TIMESTAMP], the number the random generator yields and
      [generate_password_hash] (with its salt) are arguments of the
      functions that use them.
    - The session is the boolean [admin_logged_in]; the JSON bodies are
      records of optional strings, [None] for an absent key.
    - An integer that reaches the database is taken within SQLite's 64
      bits; the driver's [OverflowError] for a longer one is not modelled.
    - The page routes and the connection helpers are left out. *)

From Stdlib Require Import ZArith List String Ascii Bool Lia Permutation Sorted.
Import ListNotations.

Local Open Scope string_scope.
Local Open Scope Z_scope.

(** ** Python strings *)

Module pystr.

(** [str.isspace] on one character: TAB..CR, FS..US, space, NEL, NBSP. *)
Definition is_space (c : ascii) : bool :=
  let n := N_of_ascii c in
  ((9 <=? n) && (n <=? 13) || (28 <=? n) && (n <=? 32)
   || (n =? 133) || (n =? 160))%N.

(** [str.lower] on one character: A..Z and the Latin-1 capitals
    (U+00C0..U+00DE without the multiplication sign U+00D7).  Above the
    range of the model [str.lower] also has characters that become ASCII
    letters (the Kelvin sign U+212A becomes k). *)
Definition lower_char (c : ascii) : ascii :=
  let n := N_of_ascii c in
  if ((65 <=? n) && (n <=? 90)
      || (192 <=? n) && (n <=? 222) && negb (n =? 215))%N
  then ascii_of_N (n + 32) else c.

Fixpoint lower (s : string) : string :=
  match s with
  | EmptyString => EmptyString
  | String c r => String (lower_char c) (lower r)
  end.

Fixpoint lstrip (s : string) : string :=
  match s with
  | EmptyString => EmptyString
  | String c r => if is_space c then lstrip r else s
  end.

Fixpoint rstrip (s : string) : string :=
  match s with
  | EmptyString => EmptyString
  | String c r =>
      match rstrip r with
      | EmptyString => if is_space c then EmptyString else String c EmptyString
      | r' => String c r'
      end
  end.

Definition strip (s : string) : string := lstrip (rstrip s).

(** Truthiness of a string, as in [x or None]. *)
Definition or_none (s : string) : option string :=
  match s with
  | EmptyString => None
  | _ => Some s
  end.

End pystr.

(** ** Regular expressions, as far as [is_valid_email] uses them *)

Module re.

Inductive regex : Type :=
| Empty : regex
| Eps : regex
| Cls : (ascii -> bool) -> regex
| Cat : regex -> regex -> regex
| Alt : regex -> regex -> regex
| Star : regex -> regex.

(** [r+] and [r{2,}]. *)
Definition Plus (r : regex) : regex := Cat r (Star r).
Definition AtLeast2 (r : regex) : regex := Cat r (Cat r (Star r)).
Definition Chr (c : ascii) : regex := Cls (Ascii.eqb c).

Fixpoint nullable (r : regex) : bool :=
  match r with
  | Empty => false
  | Eps => true
  | Cls _ => false
  | Cat r1 r2 => nullable r1 && nullable r2
  | Alt r1 r2 => nullable r1 || nullable r2
  | Star _ => true
  end.

Fixpoint deriv (c : ascii) (r : regex) : regex :=
  match r with
  | Empty => Empty
  | Eps => Empty
  | Cls p => if p c then Eps else Empty
  | Cat r1 r2 =>
      if nullable r1
      then Alt (Cat (deriv c r1) r2) (deriv c r2)
      else Cat (deriv c r1) r2
  | Alt r1 r2 => Alt (deriv c r1) (deriv c r2)
  | Star r1 => Cat (deriv c r1) (Star r1)
  end.

Fixpoint fullmatch (r : regex) (s : string) : bool :=
  match s with
  | EmptyString => nullable r
  | String c s' => fullmatch (deriv c r) s'
  end.

(** The string without its last character when that one is a newline:
    where [$] may sit apart from the very end. *)
Fixpoint before_final_newline (s : string) : option string :=
  match s with
  | EmptyString => None
  | String c EmptyString => if Ascii.eqb c "010" then Some EmptyString else None
  | String c r =>
      match before_final_newline r with
      | Some r' => Some (String c r')
      | None => None
      end
  end.

(** [re.match('^' + r + '$', s) is not None]: the match starts at the
    first character, and [$] holds at the end of the string or just before
    a newline that ends it. *)
Definition match_anchored (r : regex) (s : string) : bool :=
  fullmatch r s
  || match before_final_newline s with
     | Some s' => fullmatch r s'
     | None => false
     end.

(** The strings a pattern denotes. *)
Inductive Lang : regex -> string -> Prop :=
| LEps : Lang Eps EmptyString
| LCls : forall p c, p c = true -> Lang (Cls p) (String c EmptyString)
| LCat : forall r1 r2 s1 s2, Lang r1 s1 -> Lang r2 s2 -> Lang (Cat r1 r2) (s1 ++ s2)
| LAltL : forall r1 r2 s, Lang r1 s -> Lang (Alt r1 r2) s
| LAltR : forall r1 r2 s, Lang r2 s -> Lang (Alt r1 r2) s
| LStar0 : forall r, Lang (Star r) EmptyString
| LStarS : forall r s1 s2, Lang r s1 -> Lang (Star r) s2 -> Lang (Star r) (s1 ++ s2).

(** A pattern that does not tell a letter from its lower case. *)
Fixpoint case_blind (r : regex) : Prop :=
  match r with
  | Cls p => forall c, p (pystr.lower_char c) = p c
  | Cat r1 r2 => case_blind r1 /\ case_blind r2
  | Alt r1 r2 => case_blind r1 /\ case_blind r2
  | Star r1 => case_blind r1
  | Empty => True
  | Eps => True
  end.

End re.

(** The three character classes of the pattern. *)
Module cls.

Definition in_range (lo hi : N) (c : ascii) : bool :=
  let n := N_of_ascii c in ((lo <=? n) && (n <=? hi))%N.

Definition one_of (l : list ascii) (c : ascii) : bool :=
  existsb (Ascii.eqb c) l.

(** [[a-zA-Z]] *)
Definition alpha (c : ascii) : bool := in_range 97 122 c || in_range 65 90 c.
(** [[a-zA-Z0-9._%+-]] *)
Definition local_part (c : ascii) : bool :=
  alpha c || in_range 48 57 c || one_of ["."; "_"; "%"; "+"; "-"]%char c.
(** [[a-zA-Z0-9.-]] *)
Definition domain (c : ascii) : bool :=
  alpha c || in_range 48 57 c || one_of ["."; "-"]%char c.

End cls.

(** ** The persistent store *)

(** A row of [verses]. *)
Record Verse : Type := mkVerse {
  v_id : Z;
  v_text : string;
  v_reference : string;
  v_created_at : Z
}.

(** A row of [user_draws]. *)
Record UserDraw : Type := mkUserDraw {
  ud_id : Z;
  ud_email : string;
  ud_verse_id : Z;
  ud_first_name : option string;
  ud_last_name : option string;
  ud_drawn_at : Z
}.

(** A row of [admin]. *)
Record Admin : Type := mkAdmin {
  a_id : Z;
  a_username : string;
  a_password_hash : string
}.

(** The three tables, rows in insertion order, each with the last value
    its id sequence handed out. *)
Record Store : Type := mkStore {
  verses : list Verse;
  verses_seq : Z;
  user_draws : list UserDraw;
  user_draws_seq : Z;
  admin : list Admin;
  admin_seq : Z
}.

(** What a connection finds: a database without the tables, or the tables. *)
Inductive Database : Type :=
| NoTables : Database
| Tables : Store -> Database.

Inductive constraint : Type :=
| unique_user_draws_email : constraint
| foreign_key_user_draws_verse_id : constraint.

(** The exceptions of the database drivers that the code can meet. *)
Inductive exn : Type :=
| IntegrityError : constraint -> exn.

Inductive result (A : Type) : Type :=
| Ok : A -> result A
| Raise : exn -> result A.

Arguments Ok {A} _.
Arguments Raise {A} _.

(** ** The SQL statements the code issues *)

Module sql.

Definition empty_store : Store :=
  {| verses := []; verses_seq := 0;
     user_draws := []; user_draws_seq := 0;
     admin := []; admin_seq := 0 |}.

(** The three [CREATE TABLE IF NOT EXISTS]. *)
Definition create_tables_if_not_exist (db : Database) : Store :=
  match db with
  | NoTables => empty_store
  | Tables s => s
  end.

(** [SELECT COUNT( * )]. *)
Definition count {A : Type} (rows : list A) : Z := Z.of_nat (List.length rows).

(** [INSERT INTO admin (username, password_hash) VALUES (?, ?)]. *)
Definition insert_admin (username password_hash : string) (s : Store) : Store :=
  let id := admin_seq s + 1 in
  {| verses := verses s; verses_seq := verses_seq s;
     user_draws := user_draws s; user_draws_seq := user_draws_seq s;
     admin := admin s ++ [mkAdmin id username password_hash];
     admin_seq := id |}.

(** [INSERT INTO verses (text, reference) VALUES (?, ?)]; the id of the
    new row comes back ([lastrowid], [RETURNING id]). *)
Definition insert_verse (text reference : string) (now : Z) (s : Store)
  : Z * Store :=
  let id := verses_seq s + 1 in
  (id,
   {| verses := verses s ++ [mkVerse id text reference now];
      verses_seq := id;
      user_draws := user_draws s; user_draws_seq := user_draws_seq s;
      admin := admin s; admin_seq := admin_seq s |}).

(** Some row of [user_draws] refers to the verse. *)
Definition referenced (verse_id : Z) (s : Store) : bool :=
  existsb (fun ud => ud_verse_id ud =? verse_id) (user_draws s).

Definition has_verse (verse_id : Z) (s : Store) : bool :=
  existsb (fun v => v_id v =? verse_id) (verses s).

(** [DELETE FROM verses WHERE id = ?], with [rowcount].  Where the foreign
    key is enforced, a verse that a draw refers to cannot go. *)
Definition delete_verse (USE_POSTGRES : bool) (verse_id : Z) (s : Store)
  : result Z * Store :=
  if USE_POSTGRES && has_verse verse_id s && referenced verse_id s
  then (Raise (IntegrityError foreign_key_user_draws_verse_id), s)
  else
    let kept := filter (fun v => negb (v_id v =? verse_id)) (verses s) in
    (Ok (count (verses s) - count kept),
     {| verses := kept; verses_seq := verses_seq s;
        user_draws := user_draws s; user_draws_seq := user_draws_seq s;
        admin := admin s; admin_seq := admin_seq s |}).

(** A rejected insert: nothing is written; PostgreSQL has taken the next
    value of the sequence all the same. *)
Definition rejected (USE_POSTGRES : bool) (s : Store) : Store :=
  if USE_POSTGRES
  then {| verses := verses s; verses_seq := verses_seq s;
          user_draws := user_draws s; user_draws_seq := user_draws_seq s + 1;
          admin := admin s; admin_seq := admin_seq s |}
  else s.

(** [INSERT INTO user_draws (email, verse_id, first_name, last_name)
    VALUES (?, ?, ?, ?)] under [email TEXT UNIQUE] and the foreign key. *)
Definition insert_user_draw (USE_POSTGRES : bool) (email : string)
  (verse_id : Z) (first_name last_name : option string) (now : Z) (s : Store)
  : result unit * Store :=
  if existsb (fun ud => String.eqb (ud_email ud) email) (user_draws s)
  then (Raise (IntegrityError unique_user_draws_email), rejected USE_POSTGRES s)
  else if USE_POSTGRES && negb (has_verse verse_id s)
  then (Raise (IntegrityError foreign_key_user_draws_verse_id),
        rejected USE_POSTGRES s)
  else
    let id := user_draws_seq s + 1 in
    (Ok tt,
     {| verses := verses s; verses_seq := verses_seq s;
        user_draws :=
          user_draws s
          ++ [mkUserDraw id email verse_id first_name last_name now];
        user_draws_seq := id;
        admin := admin s; admin_seq := admin_seq s |}).

(** [FROM user_draws ud JOIN verses v ON ud.verse_id = v.id]: an inner
    join, a draw whose verse is gone yields no row. *)
Definition join_draws_verses (s : Store) : list (UserDraw * Verse) :=
  flat_map
    (fun ud => map (pair ud) (filter (fun v => ud_verse_id ud =? v_id v) (verses s)))
    (user_draws s).

(** [ORDER BY key DESC]: insertion sort, rows of equal key stay in order. *)
Fixpoint insert_desc {A : Type} (key : A -> Z) (x : A) (l : list A) : list A :=
  match l with
  | [] => [x]
  | y :: ys => if key y <=? key x then x :: l else y :: insert_desc key x ys
  end.

Definition order_by_desc {A : Type} (key : A -> Z) (l : list A) : list A :=
  fold_right (insert_desc key) [] l.

End sql.

(** ** [database.py] *)

(** A verse as the draw functions hand it out: a mapping with the keys
    [id], [text], [reference], and, on the path that re-reads a draw, also
    [drawn_at], [first_name], [last_name]. *)
Record DrawInfo : Type := mkDrawInfo {
  drawn_at : Z;
  first_name : option string;
  last_name : option string
}.

Record VerseDict : Type := mkVerseDict {
  d_id : Z;
  d_text : string;
  d_reference : string;
  d_draw : option DrawInfo
}.

(** [{'verse': ..., 'already_drawn': ...}] *)
Record DrawResult : Type := mkDrawResult {
  verse : VerseDict;
  already_drawn : bool
}.

(** [{'total_draws': ..., 'total_verses': ...}] *)
Record Stats : Type := mkStats {
  total_draws : Z;
  total_verses : Z
}.

(** A row of [get_all_draws]. *)
Record DrawRow : Type := mkDrawRow {
  r_email : string;
  r_verse_id : Z;
  r_drawn_at : Z;
  r_first_name : option string;
  r_last_name : option string;
  r_text : string;
  r_reference : string
}.

(** Where [draw_verse_for_user] stands once it has read the store. *)
Inductive DrawRead : Type :=
| AlreadyDrawn : VerseDict -> DrawRead
| NoVerses : DrawRead
| Chosen : VerseDict -> DrawRead.

Module database.

Definition sample_verses : list (string * string) :=
  [ ("Car Dieu a tant aimé le monde qu'il a donné son Fils unique, afin que quiconque croit en lui ne périsse point, mais qu'il ait la vie éternelle.", "Jean 3:16");
    ("L'Éternel est mon berger: je ne manquerai de rien.", "Psaume 23:1");
    ("Je puis tout par celui qui me fortifie.", "Philippiens 4:13");
    ("Confie-toi en l'Éternel de tout ton cœur, Et ne t'appuie pas sur ta sagesse.", "Proverbes 3:5");
    ("Car je connais les projets que j'ai formés sur vous, dit l'Éternel, projets de paix et non de malheur, afin de vous donner un avenir et de l'espérance.", "Jérémie 29:11");
    ("Ne crains point, car je suis avec toi; Ne promène pas des regards inquiets, car je suis ton Dieu.", "Ésaïe 41:10");
    ("Venez à moi, vous tous qui êtes fatigués et chargés, et je vous donnerai du repos.", "Matthieu 11:28");
    ("L'amour est patient, il est plein de bonté; l'amour n'est point envieux; l'amour ne se vante point.", "1 Corinthiens 13:4") ].

(** [init_db]: create the tables, then the default admin when [admin] is
    empty, then the sample verses when [verses] is empty.  The inserts of
    one run share one reading [now] of the clock. *)
Definition init_db (generate_password_hash : string -> string) (now : Z)
  (db : Database) : Store :=
  let s0 := sql.create_tables_if_not_exist db in
  let s1 :=
    if sql.count (admin s0) =? 0
    then sql.insert_admin "admin" (generate_password_hash "admin123") s0
    else s0 in
  if sql.count (verses s1) =? 0
  then
    fold_left
      (fun s tr => snd (sql.insert_verse (fst tr) (snd tr) now s))
      sample_verses s1
  else s1.

(** [SELECT id, text, reference, created_at FROM verses ORDER BY id DESC] *)
Definition get_all_verses (s : Store) : list Verse :=
  sql.order_by_desc v_id (verses s).

Definition add_verse (text reference : string) (now : Z) (s : Store)
  : Z * Store :=
  sql.insert_verse text reference now s.

(** [deleted = cursor.rowcount > 0] *)
Definition delete_verse (USE_POSTGRES : bool) (verse_id : Z) (s : Store)
  : result bool * Store :=
  match sql.delete_verse USE_POSTGRES verse_id s with
  | (Ok rowcount, s') => (Ok (0 <? rowcount), s')
  | (Raise e, s') => (Raise e, s')
  end.

Definition verse_row (v : Verse) : VerseDict :=
  mkVerseDict (v_id v) (v_text v) (v_reference v) None.


Definition joined_row (j : UserDraw * Verse) : VerseDict :=
  let (ud, v) := j in
  mkVerseDict (v_id v) (v_text v) (v_reference v)
    (Some (mkDrawInfo (ud_drawn_at ud) (ud_first_name ud) (ud_last_name ud))).

(** The join of draws and verses, restricted to [ud.email = email.lower()];
    [fetchone] keeps the first row. *)
Definition check_user_draw (email : string) (s : Store) : option VerseDict :=
  match
    filter (fun j => String.eqb (ud_email (fst j)) (pystr.lower email))
      (sql.join_draws_verses s)
  with
  | j :: _ => Some (joined_row j)
  | [] => None
  end.

(** [email.lower().strip()] *)
Definition normalize (email : string) : string :=
  pystr.strip (pystr.lower email).

(** [random.choice(seq)] is [seq[i]] for a random [i] below [len(seq)];
    [rnd] is what the generator yields. *)
Definition choice {A : Type} (rnd : nat) (x0 : A) (rest : list A) : A :=
  nth (rnd mod (List.length (x0 :: rest))) (x0 :: rest) x0.

(** [draw_verse_for_user] up to the choice of a verse; [email] is the
    normalized one.  Nothing is written. *)
Definition draw_read (email : string) (rnd : nat) (s : Store) : DrawRead :=
  match check_user_draw email s with
  | Some existing => AlreadyDrawn existing
  | None =>
      match map verse_row (verses s) with
      | [] => NoVerses
      | x0 :: rest => Chosen (choice rnd x0 rest)
      end
  end.

(** [draw_verse_for_user] from "Save the draw" on: the insert, the commit
    and the result.  Nothing catches what the insert raises. *)
Definition draw_save (USE_POSTGRES : bool) (email : string)
  (chosen_dict : VerseDict) (first_name last_name : option string) (now : Z)
  (s : Store) : result (option DrawResult) * Store :=
  match
    sql.insert_user_draw USE_POSTGRES email (d_id chosen_dict)
      first_name last_name now s
  with
  | (Ok _, s') => (Ok (Some (mkDrawResult chosen_dict false)), s')
  | (Raise e, s') => (Raise e, s')
  end.

(** What [draw_verse_for_user] does with what it has read. *)
Definition draw_finish (USE_POSTGRES : bool) (email : string)
  (read : DrawRead) (first_name last_name : option string) (now : Z)
  (s : Store) : result (option DrawResult) * Store :=
  match read with
  | AlreadyDrawn existing => (Ok (Some (mkDrawResult existing true)), s)
  | NoVerses => (Ok None, s)
  | Chosen chosen_dict =>
      draw_save USE_POSTGRES email chosen_dict first_name last_name now s
  end.

Definition draw_verse_for_user (USE_POSTGRES : bool) (email : string)
  (first_name last_name : option string) (rnd : nat) (now : Z) (s : Store)
  : result (option DrawResult) * Store :=
  let email := normalize email in
  draw_finish USE_POSTGRES email (draw_read email rnd s)
    first_name last_name now s.


Definition get_draw_stats (s : Store) : Stats :=
  mkStats (sql.count (user_draws s)) (sql.count (verses s)).

Definition draw_row (j : UserDraw * Verse) : DrawRow :=
  let (ud, v) := j in
  mkDrawRow (ud_email ud) (ud_verse_id ud) (ud_drawn_at ud)
    (ud_first_name ud) (ud_last_name ud) (v_text v) (v_reference v).

(** The join of draws and verses, [ORDER BY ud.drawn_at DESC]. *)
Definition get_all_draws (s : Store) : list DrawRow :=
  map draw_row
    (sql.order_by_desc (fun j => ud_drawn_at (fst j)) (sql.join_draws_verses s)).

(** [verify_admin]: the first row of [admin] of that username, its id when
    [check_password_hash] (werkzeug's, an argument here) accepts the
    password against the stored hash. *)
Definition verify_admin (check_password_hash : string -> string -> bool)
  (username password : string) (s : Store) : option Z :=
  match filter (fun a => String.eqb (a_username a) username) (admin s) with
  | row :: _ =>
      if check_password_hash (a_password_hash row) password
      then Some (a_id row)
      else None
  | [] => None
  end.

End database.

(** ** [app.py] *)

(** The JSON body of [POST /api/draw-verse]; [None] is an absent key, the
    values are strings. *)
Record DrawRequest : Type := mkDrawRequest {
  req_email : option string;
  req_first_name : option string;
  req_last_name : option string
}.

(** The JSON body of [POST /api/admin/verses]. *)
Record VerseRequest : Type := mkVerseRequest {
  req_text : option string;
  req_reference : option string
}.

Inductive Body : Type :=
| Failure : string -> Body                 (* success false, error *)
| Drawn : VerseDict -> bool -> Body        (* success, verse, already_drawn *)
| VerseList : list Verse -> Stats -> Body  (* success, verses, stats *)
| DrawList : list DrawRow -> Body          (* success, draws *)
| VerseAdded : Z -> string -> Body         (* success, verse_id, message *)
| Message : string -> Body                 (* success, message *)
| Unhandled : exn -> Body.                 (* an exception left the view *)

Record Response : Type := mkResponse {
  status : Z;
  body : Body
}.

(** The JSON body of [POST /api/admin/login]. *)
Record LoginRequest : Type := mkLoginRequest {
  req_username : option string;
  req_password : option string
}.

(** The session cookie: the two keys the application writes, [None] for
    an absent key. *)
Record Session : Type := mkSession {
  sess_admin_id : option Z;
  sess_admin_logged_in : option bool
}.

(** The bodies of the logout and check routes. *)
Inductive SessionBody : Type :=
| Success : SessionBody              (* success true *)
| LoggedIn : bool -> SessionBody.    (* logged_in *)

Module app.

Import re.

(** [^[a-zA-Z0-9._%+-]+@[a-zA-Z0-9.-]+\.[a-zA-Z]{2,}$] without its anchors. *)
Definition pattern : regex :=
  Cat (Plus (Cls cls.local_part))
    (Cat (Chr "@")
       (Cat (Plus (Cls cls.domain))
          (Cat (Chr ".") (AtLeast2 (Cls cls.alpha))))).

Definition is_valid_email (email : string) : bool :=
  match_anchored pattern email.

Definition unauthorized : Response := mkResponse 401 (Failure "Non autorisé").

(** What Flask answers when a view raises. *)
Definition internal_server_error (e : exn) : Response :=
  mkResponse 500 (Unhandled e).

Definition get_or_empty (field : option string) : string :=
  match field with
  | Some x => x
  | None => EmptyString
  end.

(** [POST /api/draw-verse] *)
Definition draw_verse (USE_POSTGRES : bool) (data : option DrawRequest)
  (rnd : nat) (now : Z) (s : Store) : Response * Store :=
  match data with
  | None => (mkResponse 400 (Failure "Email requis"), s)
  | Some data =>
      match req_email data with
      | None => (mkResponse 400 (Failure "Email requis"), s)
      | Some email =>
          let email := pystr.strip email in
          if negb (is_valid_email email)
          then (mkResponse 400 (Failure "Format d'email invalide"), s)
          else
            let first_name := pystr.strip (get_or_empty (req_first_name data)) in
            let last_name := pystr.strip (get_or_empty (req_last_name data)) in
            match
              database.draw_verse_for_user USE_POSTGRES email
                (pystr.or_none first_name) (pystr.or_none last_name) rnd now s
            with
            | (Raise e, s') => (internal_server_error e, s')
            | (Ok None, s') =>
                (mkResponse 404
                   (Failure "Aucun verset disponible. Contactez l'administrateur."),
                 s')
            | (Ok (Some result), s') =>
                (mkResponse 200 (Drawn (verse result) (already_drawn result)), s')
            end
      end
  end.

(** [GET /api/admin/verses] *)
Definition get_verses (admin_logged_in : bool) (s : Store) : Response :=
  if negb admin_logged_in then unauthorized
  else
    mkResponse 200
      (VerseList (database.get_all_verses s) (database.get_draw_stats s)).

(** [GET /api/admin/draws] *)
Definition admin_draws (admin_logged_in : bool) (s : Store) : Response :=
  if negb admin_logged_in then unauthorized
  else mkResponse 200 (DrawList (database.get_all_draws s)).

(** [POST /api/admin/verses] *)
Definition add_verse (admin_logged_in : bool) (data : option VerseRequest)
  (now : Z) (s : Store) : Response * Store :=
  if negb admin_logged_in then (unauthorized, s)
  else
    match data with
    | Some (mkVerseRequest (Some text) (Some reference)) =>
        let text := pystr.strip text in
        let reference := pystr.strip reference in
        match pystr.or_none text, pystr.or_none reference with
        | Some _, Some _ =>
            let (verse_id, s') := database.add_verse text reference now s in
            (mkResponse 200 (VerseAdded verse_id "Verset ajouté avec succès"), s')
        | _, _ =>
            (mkResponse 400
               (Failure "Le texte et la référence ne peuvent pas être vides"), s)
        end
    | _ => (mkResponse 400 (Failure "Texte et référence requis"), s)
    end.

(** [DELETE /api/admin/verses/<int:verse_id>] *)
Definition delete_verse (USE_POSTGRES : bool) (admin_logged_in : bool)
  (verse_id : Z) (s : Store) : Response * Store :=
  if negb admin_logged_in then (unauthorized, s)
  else
    match database.delete_verse USE_POSTGRES verse_id s with
    | (Raise e, s') => (internal_server_error e, s')
    | (Ok true, s') => (mkResponse 200 (Message "Verset supprimé"), s')
    | (Ok false, s') => (mkResponse 404 (Failure "Verset non trouvé"), s')
    end.

(** [session.clear()] *)
Definition cleared : Session := mkSession None None.

(** [session.get('admin_logged_in', False)], and its truth value in
    [if not session.get('admin_logged_in')]. *)
Definition logged_in (session : Session) : bool :=
  match sess_admin_logged_in session with
  | Some flag => flag
  | None => false
  end.

(** [POST /api/admin/login]; [if admin_id:] is false for [None] and for 0. *)
Definition admin_login (check_password_hash : string -> string -> bool)
  (data : option LoginRequest) (session : Session) (s : Store)
  : Response * Session :=
  match data with
  | Some (mkLoginRequest (Some username) (Some password)) =>
      match database.verify_admin check_password_hash username password s with
      | Some admin_id =>
          if admin_id =? 0
          then (mkResponse 401 (Failure "Identifiants incorrects"), session)
          else (mkResponse 200 (Message "Connexion réussie"),
                mkSession (Some admin_id) (Some true))
      | None => (mkResponse 401 (Failure "Identifiants incorrects"), session)
      end
  | _ =>
      (mkResponse 400 (Failure "Nom d'utilisateur et mot de passe requis"),
       session)
  end.

(** [POST /api/admin/logout] *)
Definition admin_logout (session : Session) : SessionBody * Session :=
  (Success, cleared).

(** [GET /api/admin/check] *)
Definition admin_check (session : Session) : SessionBody :=
  LoggedIn (logged_in session).

End app.

(** ** Invariants of the store and the states the application reaches *)

(** What the schema guarantees: [id] is the primary key of [verses] and
    comes from the sequence, [email] is unique in [user_draws], and, where
    the foreign key is enforced, every draw points at a verse.  What the
    application adds: stored emails are normalized. *)
Record store_ok (USE_POSTGRES : bool) (s : Store) : Prop := mk_store_ok {
  ok_verse_ids : NoDup (map v_id (verses s));
  ok_verse_seq : forall v, In v (verses s) -> v_id v <= verses_seq s;
  ok_emails : NoDup (map ud_email (user_draws s));
  ok_normalized :
    forall ud, In ud (user_draws s) ->
      database.normalize (ud_email ud) = ud_email ud;
  ok_foreign_key :
    USE_POSTGRES = true ->
    forall ud, In ud (user_draws s) ->
      In (ud_verse_id ud) (map v_id (verses s))
}.

(** One call of the database layer, or the second half of a draw whose
    first half read the store earlier (requests are served side by side,
    so other calls may have come in between). *)
Inductive step (USE_POSTGRES : bool) : Store -> Store -> Prop :=
| step_init_db : forall h now s,
    step USE_POSTGRES s (database.init_db h now (Tables s))
| step_add_verse : forall text reference now s,
    step USE_POSTGRES s (snd (database.add_verse text reference now s))
| step_delete_verse : forall verse_id s,
    step USE_POSTGRES s (snd (database.delete_verse USE_POSTGRES verse_id s))
| step_draw : forall email first last rnd now s,
    step USE_POSTGRES s
      (snd (database.draw_verse_for_user USE_POSTGRES email first last rnd now s))
| step_draw_finish : forall email read first last now s,
    step USE_POSTGRES s
      (snd (database.draw_finish USE_POSTGRES (database.normalize email)
              read first last now s)).

(** The application initializes the database when it starts, then serves. *)
Inductive reachable (USE_POSTGRES : bool) : Store -> Prop :=
| reach_start : forall h now,
    reachable USE_POSTGRES (database.init_db h now NoTables)
| reach_step : forall s s',
    reachable USE_POSTGRES s -> step USE_POSTGRES s s' ->
    reachable USE_POSTGRES s'.

(** The draw records of an identity. *)
Definition draws_of (email : string) (s : Store) : list UserDraw :=
  filter
    (fun ud => String.eqb (database.normalize (ud_email ud))
                          (database.normalize email))
    (user_draws s).

(** A draw whose verse is no longer in [verses]. *)
Definition dangling (s : Store) (ud : UserDraw) : Prop :=
  ~ In (ud_verse_id ud) (map v_id (verses s)).

(** The specification's well-formed email: local-part, [@], a domain that
    has a dot, and at least two characters after that dot. *)
Definition email_shape (email : string) : Prop :=
  exists local_part domain tld,
    email = local_part ++ "@" ++ domain ++ "." ++ tld
    /\ local_part <> EmptyString
    /\ (2 <= String.length tld)%nat.

(** Any number of calls, one after the other. *)
Inductive steps (USE_POSTGRES : bool) : Store -> Store -> Prop :=
| steps_none : forall s, steps USE_POSTGRES s s
| steps_more : forall s s' s'',
    steps USE_POSTGRES s s' -> step USE_POSTGRES s' s'' ->
    steps USE_POSTGRES s s''.

(** ** The application as a server *)

(** What reaches the application: a request of one of the JSON routes,
    with what the route reads besides the body (the clock, the random
    generator), or a restart of the process, which runs [init_db]. *)
Inductive Request : Type :=
| PostDrawVerse : option DrawRequest -> nat -> Z -> Request
| PostAdminLogin : option LoginRequest -> Request
| PostAdminLogout : Request
| GetAdminCheck : Request
| GetAdminVerses : Request
| GetAdminDraws : Request
| PostAdminVerses : option VerseRequest -> Z -> Request
| DeleteAdminVerse : Z -> Request.

Inductive Event : Type :=
| FromClient : nat -> Request -> Event
| Restart : (string -> string) -> Z -> Event.

Inductive Answer : Type :=
| Json : Response -> Answer
| SessionJson : SessionBody -> Answer
| Restarted : Answer.

(** The cookies of the clients and the database. *)
Record Server : Type := mkServer {
  cookies : nat -> Session;
  store : Store
}.

Module server.

Definition set_cookie (client : nat) (session : Session)
  (cookies : nat -> Session) : nat -> Session :=
  fun c => if Nat.eqb c client then session else cookies c.

(** One request of a client, routed to its view. *)
Definition route (USE_POSTGRES : bool)
  (check_password_hash : string -> string -> bool)
  (request : Request) (session : Session) (s : Store)
  : Answer * Session * Store :=
  match request with
  | PostDrawVerse data rnd now =>
      let (response, s') := app.draw_verse USE_POSTGRES data rnd now s in
      (Json response, session, s')
  | PostAdminLogin data =>
      let (response, session') :=
        app.admin_login check_password_hash data session s in
      (Json response, session', s)
  | PostAdminLogout =>
      let (body, session') := app.admin_logout session in
      (SessionJson body, session', s)
  | GetAdminCheck => (SessionJson (app.admin_check session), session, s)
  | GetAdminVerses =>
      (Json (app.get_verses (app.logged_in session) s), session, s)
  | GetAdminDraws =>
      (Json (app.admin_draws (app.logged_in session) s), session, s)
  | PostAdminVerses data now =>
      let (response, s') := app.add_verse (app.logged_in session) data now s in
      (Json response, session, s')
  | DeleteAdminVerse verse_id =>
      let (response, s') :=
        app.delete_verse USE_POSTGRES (app.logged_in session) verse_id s in
      (Json response, session, s')
  end.

Definition handle (USE_POSTGRES : bool)
  (check_password_hash : string -> string -> bool)
  (event : Event) (srv : Server) : Answer * Server :=
  match event with
  | FromClient client request =>
      match
        route USE_POSTGRES check_password_hash request
          (cookies srv client) (store srv)
      with
      | (answer, session', s') =>
          (answer, mkServer (set_cookie client session' (cookies srv)) s')
      end
  | Restart generate_password_hash now =>
      (Restarted,
       mkServer (cookies srv)
         (database.init_db generate_password_hash now (Tables (store srv))))
  end.

(** The events in order, with the answers. *)
Fixpoint serve (USE_POSTGRES : bool)
  (check_password_hash : string -> string -> bool)
  (events : list Event) (srv : Server) : list Answer * Server :=
  match events with
  | [] => ([], srv)
  | event :: rest =>
      let (answer, srv') := handle USE_POSTGRES check_password_hash event srv in
      let (answers, srv'') := serve USE_POSTGRES check_password_hash rest srv' in
      (answer :: answers, srv'')
  end.

(** The first start: no client has a cookie, the database has no tables. *)
Definition start (generate_password_hash : string -> string) (now : Z)
  : Server :=
  mkServer (fun _ => app.cleared)
    (database.init_db generate_password_hash now NoTables).

End server.


(** ** A run of the application, for the examples below *)

(** A stand-in for [werkzeug.security.generate_password_hash]. *)
Definition demo_hash (password : string) : string := "scrypt$" ++ password.

(** The database after the first start. *)
Definition demo_start : Store := database.init_db demo_hash 1000 NoTables.

(** Then [Foo@Bar.com] draws on SQLite; the generator yields 10, the third
    verse is chosen. *)
Definition demo_drawn : Store :=
  snd (database.draw_verse_for_user false "Foo@Bar.com" None None 10 2000
         demo_start).

(** Then the administrator deletes that verse. *)
Definition demo_deleted : Store :=
  snd (database.delete_verse false 3 demo_drawn).

(** Or the administrator deletes every verse. *)
Definition demo_no_verses : Store :=
  fold_left (fun s verse_id => snd (database.delete_verse false verse_id s))
    [1; 2; 3; 4; 5; 6; 7; 8] demo_drawn.

(** ** Words for the further properties *)

(** Every character of the string is in the class. *)
Fixpoint all_chars (p : ascii -> bool) (s : string) : bool :=
  match s with
  | EmptyString => true
  | String c r => p c && all_chars p r
  end.

(** An address put together from its three parts. *)
Definition address (local_part domain tld : string) : string :=
  local_part ++ "@" ++ domain ++ "." ++ tld.

(** The parts the validation pattern asks for: a non-empty local part of
    [[a-zA-Z0-9._%+-]], a non-empty [[a-zA-Z0-9.-]] before the last dot, and
    two letters or more after it. *)
Definition pattern_parts (local_part domain tld : string) : Prop :=
  local_part <> EmptyString
  /\ all_chars cls.local_part local_part = true
  /\ domain <> EmptyString
  /\ all_chars cls.domain domain = true
  /\ all_chars cls.alpha tld = true
  /\ (2 <= String.length tld)%nat.

(** A draw record as the endpoint writes it: the email is a lower-case
    address of the three parts, a name is absent or a non-empty stripped
    string. *)
Definition clean_name (name : option string) : Prop :=
  match name with
  | Some n => n <> EmptyString /\ pystr.strip n = n
  | None => True
  end.

Definition clean_draw (ud : UserDraw) : Prop :=
  (exists l d t, pattern_parts l d t /\ ud_email ud = address l d t)
  /\ pystr.lower (ud_email ud) = ud_email ud
  /\ clean_name (ud_first_name ud)
  /\ clean_name (ud_last_name ud).

(** No client is logged in. *)
Definition nobody_logged_in (srv : Server) : Prop :=
  forall client, app.logged_in (cookies srv client) = false.

(** A stand-in for [werkzeug.security.check_password_hash], the one that
    goes with [demo_hash]. *)
Definition demo_check (hash password : string) : bool :=
  String.eqb hash (demo_hash password).

(** The answer to a request of an administrator's route is the 401 one;
    other events are not looked at. *)
Definition refused_if_admin (event : Event) (answer : Answer) : Prop :=
  match event with
  | FromClient _ GetAdminVerses => answer = Json app.unauthorized
  | FromClient _ GetAdminDraws => answer = Json app.unauthorized
  | FromClient _ (PostAdminVerses _ _) => answer = Json app.unauthorized
  | FromClient _ (DeleteAdminVerse _) => answer = Json app.unauthorized
  | _ => True
  end.


(** The event is not a login that would succeed against the stored hash:
    not the username [admin] with a password that [check_password_hash]
    accepts. *)
Definition not_a_good_login (check_password_hash : string -> string -> bool)
  (hash : string) (event : Event) : Prop :=
  match event with
  | FromClient _
      (PostAdminLogin (Some (mkLoginRequest (Some username) (Some password)))) =>
      String.eqb username "admin" && check_password_hash hash password = false
  | _ => True
  end.

(** ** Python strings: lemmas *)

Lemma is_space_lower_char (c : ascii) :
  pystr.is_space (pystr.lower_char c) = pystr.is_space c.
Proof.
  destruct c as [[] [] [] [] [] [] [] []]; reflexivity.
Qed.

Lemma lower_char_idem (c : ascii) :
  pystr.lower_char (pystr.lower_char c) = pystr.lower_char c.
Proof.
  destruct c as [[] [] [] [] [] [] [] []]; reflexivity.
Qed.

Lemma lower_idem (s : string) : pystr.lower (pystr.lower s) = pystr.lower s.
Proof.
  induction s as [|c r IH]; simpl; [reflexivity|].
  now rewrite lower_char_idem, IH.
Qed.

Lemma lower_lstrip (s : string) :
  pystr.lower (pystr.lstrip s) = pystr.lstrip (pystr.lower s).
Proof.
  induction s as [|c r IH]; simpl; [reflexivity|].
  rewrite is_space_lower_char.
  destruct (pystr.is_space c); [exact IH | reflexivity].
Qed.

Lemma lower_rstrip (s : string) :
  pystr.lower (pystr.rstrip s) = pystr.rstrip (pystr.lower s).
Proof.
  induction s as [|c r IH]; simpl; [reflexivity|].
  rewrite <- IH, is_space_lower_char.
  destruct (pystr.rstrip r) as [|c' r']; simpl.
  - destruct (pystr.is_space c); reflexivity.
  - reflexivity.
Qed.

Lemma lower_strip (s : string) :
  pystr.lower (pystr.strip s) = pystr.strip (pystr.lower s).
Proof.
  unfold pystr.strip. now rewrite lower_lstrip, lower_rstrip.
Qed.

Lemma lstrip_idem (s : string) : pystr.lstrip (pystr.lstrip s) = pystr.lstrip s.
Proof.
  induction s as [|c r IH]; simpl; [reflexivity|].
  destruct (pystr.is_space c) eqn:E; [exact IH|].
  simpl. now rewrite E.
Qed.

Lemma rstrip_idem (s : string) : pystr.rstrip (pystr.rstrip s) = pystr.rstrip s.
Proof.
  induction s as [|c r IH]; simpl; [reflexivity|].
  destruct (pystr.rstrip r) as [|c' r'] eqn:E.
  - destruct (pystr.is_space c) eqn:Ec; simpl; [reflexivity|].
    now rewrite Ec.
  - change (pystr.rstrip (String c (String c' r')))
      with (match pystr.rstrip (String c' r') with
            | EmptyString =>
                if pystr.is_space c then EmptyString else String c EmptyString
            | r'' => String c r''
            end).
    now rewrite IH.
Qed.

Lemma rstrip_lstrip (s : string) :
  pystr.rstrip (pystr.lstrip s) = pystr.lstrip (pystr.rstrip s).
Proof.
  induction s as [|c r IH]; [reflexivity|].
  cbn [pystr.lstrip pystr.rstrip].
  destruct (pystr.is_space c) eqn:Ec.
  - rewrite IH.
    destruct (pystr.rstrip r) as [|c' r']; simpl; [reflexivity|].
    now rewrite Ec.
  - cbn [pystr.rstrip].
    destruct (pystr.rstrip r) as [|c' r']; simpl; now rewrite Ec.
Qed.

Lemma strip_idem (s : string) : pystr.strip (pystr.strip s) = pystr.strip s.
Proof.
  unfold pystr.strip.
  now rewrite rstrip_lstrip, rstrip_idem, lstrip_idem.
Qed.

(** What [draw_verse_for_user] stores is what [check_user_draw] looks up. *)
Lemma lower_normalize (email : string) :
  pystr.lower (database.normalize email) = database.normalize email.
Proof.
  unfold database.normalize. now rewrite lower_strip, lower_idem.
Qed.

Lemma normalize_idem (email : string) :
  database.normalize (database.normalize email) = database.normalize email.
Proof.
  unfold database.normalize at 1.
  rewrite lower_normalize. unfold database.normalize.
  apply strip_idem.
Qed.

(** The endpoint strips before the database layer normalizes. *)
Lemma normalize_strip (email : string) :
  database.normalize (pystr.strip email) = database.normalize email.
Proof.
  unfold database.normalize. now rewrite lower_strip, strip_idem.
Qed.

(** ** The matcher finds only what the pattern denotes *)

Lemma append_assoc (a b c : string) : (a ++ b) ++ c = a ++ (b ++ c).
Proof.
  induction a as [|x a IH]; simpl; [reflexivity | now rewrite IH].
Qed.

Lemma length_append (a b : string) :
  String.length (a ++ b) = (String.length a + String.length b)%nat.
Proof.
  induction a as [|x a IH]; simpl; [reflexivity | now rewrite IH].
Qed.

Lemma nullable_sound (r : re.regex) :
  re.nullable r = true -> re.Lang r EmptyString.
Proof.
  induction r as [| |p|r1 IH1 r2 IH2|r1 IH1 r2 IH2|r1 IH1]; simpl; intros H.
  - discriminate.
  - constructor.
  - discriminate.
  - apply andb_true_iff in H as [H1 H2].
    change EmptyString with (EmptyString ++ EmptyString).
    constructor; auto.
  - apply orb_true_iff in H as [H|H]; [apply re.LAltL | apply re.LAltR]; auto.
  - constructor.
Qed.

Lemma deriv_sound (c : ascii) (r : re.regex) :
  forall s, re.Lang (re.deriv c r) s -> re.Lang r (String c s).
Proof.
  induction r as [| |p|r1 IH1 r2 IH2|r1 IH1 r2 IH2|r1 IH1]; simpl; intros s H.
  - inversion H.
  - inversion H.
  - destruct (p c) eqn:E; inversion H; subst. now constructor.
  - assert (Hcat : forall t, re.Lang (re.Cat (re.deriv c r1) r2) t ->
                             re.Lang (re.Cat r1 r2) (String c t)).
    { intros t Ht. inversion Ht; subst.
      change (String c (s1 ++ s2)) with (String c s1 ++ s2).
      constructor; auto. }
    destruct (re.nullable r1) eqn:E; [|now apply Hcat].
    inversion H; subst; [now apply Hcat|].
    change (String c s) with (EmptyString ++ String c s).
    constructor; [now apply nullable_sound | auto].
  - inversion H; subst; [apply re.LAltL | apply re.LAltR]; auto.
  - inversion H; subst.
    change (String c (s1 ++ s2)) with (String c s1 ++ s2).
    constructor; auto.
Qed.

Lemma fullmatch_sound (s : string) :
  forall r, re.fullmatch r s = true -> re.Lang r s.
Proof.
  induction s as [|c s IH]; simpl; intros r H.
  - now apply nullable_sound.
  - now apply deriv_sound, IH.
Qed.

Lemma before_final_newline_spec (s : string) :
  forall s', re.before_final_newline s = Some s' -> s = s' ++ String "010" EmptyString.
Proof.
  induction s as [|c r IH]; intros s' H; [discriminate|].
  destruct r as [|c' r'].
  - simpl in H. destruct (Ascii.eqb c "010") eqn:E; [|discriminate].
    apply Ascii.eqb_eq in E. injection H as <-. now subst.
  - change (re.before_final_newline (String c (String c' r')))
      with (match re.before_final_newline (String c' r') with
            | Some r'' => Some (String c r'')
            | None => None
            end) in H.
    destruct (re.before_final_newline (String c' r')) as [r''|]; [|discriminate].
    injection H as <-. simpl. f_equal. now apply IH.
Qed.

(** A string of the pattern has the shape the specification describes. *)
Lemma pattern_shape (s : string) :
  re.Lang app.pattern s -> email_shape s.
Proof.
  unfold app.pattern, re.Plus, re.AtLeast2, re.Chr. intros H.
  inversion H as [| |? ? l rest Hl Hrest| | | |]; subst; clear H.
  inversion Hrest as [| |? ? at_ rest2 Hat Hrest2| | | |]; subst; clear Hrest.
  inversion Hrest2 as [| |? ? d rest3 Hd Hrest3| | | |]; subst; clear Hrest2.
  inversion Hrest3 as [| |? ? dot t Hdot Ht| | | |]; subst; clear Hrest3.
  inversion Hat as [|? c1 E1| | | | |]; subst; clear Hat.
  inversion Hdot as [|? c2 E2| | | | |]; subst; clear Hdot.
  apply Ascii.eqb_eq in E1, E2; subst.
  exists l, d, t. split; [reflexivity|]. split.
  - inversion Hl as [| |? ? l1 l2 Hl1 Hl2| | | |]; subst.
    inversion Hl1; subst. discriminate.
  - inversion Ht as [| |? ? t1 t' Ht1 Ht'| | | |]; subst.
    inversion Ht' as [| |? ? t2 t'' Ht2 Ht''| | | |]; subst.
    inversion Ht1; inversion Ht2; subst.
    simpl. lia.
Qed.

Lemma email_shape_newline (s : string) :
  email_shape s -> email_shape (s ++ String "010" EmptyString).
Proof.
  intros (l & d & t & -> & Hl & Ht).
  exists l, d, (t ++ String "010" EmptyString). repeat split; auto.
  - now rewrite !append_assoc.
  - rewrite length_append. lia.
Qed.

(** What [is_valid_email] accepts is well-formed in the specification's
    sense; so what is not well-formed is refused. *)
Lemma is_valid_email_shape (email : string) :
  app.is_valid_email email = true -> email_shape email.
Proof.
  unfold app.is_valid_email, re.match_anchored. intros H.
  apply orb_true_iff in H as [H|H].
  - now apply pattern_shape, fullmatch_sound.
  - destruct (re.before_final_newline email) as [s'|] eqn:E; [|discriminate].
    apply before_final_newline_spec in E. subst.
    now apply email_shape_newline, pattern_shape, fullmatch_sound.
Qed.

(** ** The validation does not depend on letter case *)

Lemma pattern_case_blind : re.case_blind app.pattern.
Proof.
  simpl. repeat split; intros c;
    destruct c as [[] [] [] [] [] [] [] []]; reflexivity.
Qed.

Lemma deriv_lower (c : ascii) (r : re.regex) :
  re.case_blind r -> re.deriv (pystr.lower_char c) r = re.deriv c r.
Proof.
  induction r as [| |p|r1 IH1 r2 IH2|r1 IH1 r2 IH2|r1 IH1]; simpl; intros H;
    try reflexivity.
  - now rewrite H.
  - destruct H as [H1 H2]. now rewrite IH1, IH2.
  - destruct H as [H1 H2]. now rewrite IH1, IH2.
  - now rewrite IH1.
Qed.

Lemma case_blind_deriv (c : ascii) (r : re.regex) :
  re.case_blind r -> re.case_blind (re.deriv c r).
Proof.
  induction r as [| |p|r1 IH1 r2 IH2|r1 IH1 r2 IH2|r1 IH1]; simpl; intros H;
    try exact I.
  - destruct (p c); exact I.
  - destruct H as [H1 H2]. destruct (re.nullable r1); simpl; auto.
  - destruct H as [H1 H2]. auto.
  - auto.
Qed.

Lemma fullmatch_lower (s : string) :
  forall r, re.case_blind r ->
    re.fullmatch r (pystr.lower s) = re.fullmatch r s.
Proof.
  induction s as [|c s IH]; simpl; intros r H; [reflexivity|].
  rewrite deriv_lower by assumption.
  now apply IH, case_blind_deriv.
Qed.

Lemma newline_lower_char (c : ascii) :
  Ascii.eqb (pystr.lower_char c) "010" = Ascii.eqb c "010".
Proof.
  destruct c as [[] [] [] [] [] [] [] []]; reflexivity.
Qed.

Lemma before_final_newline_lower (s : string) :
  re.before_final_newline (pystr.lower s)
  = option_map pystr.lower (re.before_final_newline s).
Proof.
  induction s as [|c r IH]; [reflexivity|].
  destruct r as [|c' r'].
  - simpl. rewrite newline_lower_char.
    destruct (Ascii.eqb c "010"); reflexivity.
  - change (pystr.lower (String c (String c' r')))
      with (String (pystr.lower_char c) (pystr.lower (String c' r'))).
    change (re.before_final_newline (String c (String c' r')))
      with (match re.before_final_newline (String c' r') with
            | Some r'' => Some (String c r'')
            | None => None
            end).
    remember (String c' r') as t eqn:Et.
    assert (Hn : pystr.lower t <> EmptyString) by (subst t; discriminate).
    destruct (pystr.lower t) as [|d t'] eqn:El; [contradiction|].
    change (re.before_final_newline (String (pystr.lower_char c) (String d t')))
      with (match re.before_final_newline (String d t') with
            | Some r'' => Some (String (pystr.lower_char c) r'')
            | None => None
            end).
    rewrite IH. destruct (re.before_final_newline t); reflexivity.
Qed.

(** An email is valid exactly when its lower-case form is. *)
Lemma is_valid_email_lower (email : string) :
  app.is_valid_email (pystr.lower email) = app.is_valid_email email.
Proof.
  unfold app.is_valid_email, re.match_anchored.
  rewrite before_final_newline_lower, fullmatch_lower by apply pattern_case_blind.
  destruct (re.before_final_newline email) as [s'|]; simpl; [|reflexivity].
  now rewrite fullmatch_lower by apply pattern_case_blind.
Qed.

(** Of two emails that differ in letter case and surrounding whitespace
    only, the endpoint accepts both or neither. *)
Lemma is_valid_email_normalize (raw1 raw2 : string) :
  database.normalize raw1 = database.normalize raw2 ->
  app.is_valid_email (pystr.strip raw1) = app.is_valid_email (pystr.strip raw2).
Proof.
  intros H.
  rewrite <- (is_valid_email_lower (pystr.strip raw1)),
          <- (is_valid_email_lower (pystr.strip raw2)).
  rewrite !lower_strip. exact (f_equal app.is_valid_email H).
Qed.

(** ** Lists and the SQL statements: lemmas *)

Lemma NoDup_snoc {A : Type} (l : list A) (x : A) :
  NoDup l -> ~ In x l -> NoDup (l ++ [x]).
Proof.
  intros Hl Hx.
  apply Permutation_NoDup with (l := x :: l).
  - apply Permutation_cons_append.
  - now constructor.
Qed.

Lemma NoDup_map_inj {A B : Type} (f : A -> B) (l : list A) (a b : A) :
  NoDup (map f l) -> In a l -> In b l -> f a = f b -> a = b.
Proof.
  induction l as [|x l IH]; simpl; intros Hnd Ha Hb E; [contradiction|].
  inversion Hnd as [|? ? Hx Hl]; subst.
  destruct Ha as [<-|Ha], Hb as [<-|Hb]; auto.
  - exfalso. apply Hx. rewrite E. now apply in_map.
  - exfalso. apply Hx. rewrite <- E. now apply in_map.
Qed.

(** Deleting rows keeps the primary key. *)
Lemma verse_ids_filter (keep : Verse -> bool) (vs : list Verse) :
  NoDup (map v_id vs) -> NoDup (map v_id (filter keep vs)).
Proof.
  intros Hnd. induction vs as [|v vs IH]; simpl in *; [constructor|].
  apply NoDup_cons_iff in Hnd as [Hv Hvs].
  destruct (keep v); simpl; [|now apply IH].
  apply NoDup_cons_iff. split; [|now apply IH].
  rewrite in_map_iff. intros (w & Ew & Hw).
  apply filter_In in Hw as [Hw _].
  apply Hv. rewrite <- Ew. now apply in_map.
Qed.

Lemma count_zero {A : Type} (l : list A) :
  (sql.count l =? 0) = true <-> l = [].
Proof.
  unfold sql.count. destruct l; simpl; split; intros H;
    try reflexivity; discriminate.
Qed.

Lemma count_nonzero {A : Type} (l : list A) :
  l <> [] -> (sql.count l =? 0) = false.
Proof.
  intros H. destruct (sql.count l =? 0) eqn:E; [|reflexivity].
  apply count_zero in E. contradiction.
Qed.

Lemma insert_desc_perm {A : Type} (key : A -> Z) (x : A) (l : list A) :
  Permutation (sql.insert_desc key x l) (x :: l).
Proof.
  induction l as [|y ys IH]; simpl; [reflexivity|].
  destruct (key y <=? key x); [reflexivity|].
  rewrite IH. apply perm_swap.
Qed.

Lemma order_by_desc_perm {A : Type} (key : A -> Z) (l : list A) :
  Permutation (sql.order_by_desc key l) l.
Proof.
  induction l as [|x l IH]; simpl; [reflexivity|].
  rewrite insert_desc_perm. now constructor.
Qed.

(** A row whose key is above every other one comes first. *)
Lemma order_by_desc_snoc_max {A : Type} (key : A -> Z) (l : list A) (x : A) :
  (forall y, In y l -> key y < key x) ->
  sql.order_by_desc key (l ++ [x]) = x :: sql.order_by_desc key l.
Proof.
  induction l as [|a l IH]; simpl; intros H; [reflexivity|].
  rewrite IH by auto. simpl.
  destruct (key x <=? key a) eqn:E; [|reflexivity].
  apply Z.leb_le in E. specialize (H a (or_introl eq_refl)). lia.
Qed.

Lemma existsb_email_In (email : string) (l : list UserDraw) :
  existsb (fun ud => String.eqb (ud_email ud) email) l = true
  <-> In email (map ud_email l).
Proof.
  rewrite existsb_exists, in_map_iff.
  split; intros (ud & H1 & H2).
  - exists ud. split; [now apply String.eqb_eq | assumption].
  - exists ud. split; [assumption | now apply String.eqb_eq].
Qed.

Lemma has_verse_In (verse_id : Z) (s : Store) :
  sql.has_verse verse_id s = true <-> In verse_id (map v_id (verses s)).
Proof.
  unfold sql.has_verse. rewrite existsb_exists, in_map_iff.
  split; intros (v & H1 & H2).
  - exists v. split; [now apply Z.eqb_eq | assumption].
  - exists v. split; [assumption | now apply Z.eqb_eq].
Qed.

Lemma referenced_In (verse_id : Z) (s : Store) :
  sql.referenced verse_id s = true <-> In verse_id (map ud_verse_id (user_draws s)).
Proof.
  unfold sql.referenced. rewrite existsb_exists, in_map_iff.
  split; intros (v & H1 & H2).
  - exists v. split; [now apply Z.eqb_eq | assumption].
  - exists v. split; [assumption | now apply Z.eqb_eq].
Qed.

Lemma filter_verse_id_absent (l : list Verse) (verse_id : Z) :
  ~ In verse_id (map v_id l) ->
  filter (fun w => verse_id =? v_id w) l = [].
Proof.
  induction l as [|x l IH]; simpl; intros H; [reflexivity|].
  destruct (verse_id =? v_id x) eqn:E.
  - apply Z.eqb_eq in E. exfalso. apply H. now left.
  - apply IH. intros Hin. apply H. now right.
Qed.

(** Under the primary key a draw joins with at most its one verse. *)
Lemma filter_verse_id (l : list Verse) (v : Verse) :
  NoDup (map v_id l) -> In v l ->
  filter (fun w => v_id v =? v_id w) l = [v].
Proof.
  induction l as [|x l IH]; simpl; intros Hnd Hin; [contradiction|].
  inversion Hnd as [|? ? Hx Hl]; subst.
  destruct Hin as [->|Hin].
  - rewrite Z.eqb_refl. f_equal.
    apply filter_verse_id_absent. exact Hx.
  - destruct (v_id v =? v_id x) eqn:E.
    + apply Z.eqb_eq in E. exfalso. apply Hx. rewrite <- E. now apply in_map.
    + now apply IH.
Qed.

Lemma filter_verse_id_le1 (l : list Verse) (verse_id : Z) :
  NoDup (map v_id l) ->
  (List.length (filter (fun w => (verse_id =? v_id w)%Z) l) <= 1)%nat.
Proof.
  intros Hnd.
  destruct (in_dec Z.eq_dec verse_id (map v_id l)) as [Hin|Hin].
  - apply in_map_iff in Hin as (v & <- & Hv).
    rewrite filter_verse_id by assumption. simpl. lia.
  - rewrite filter_verse_id_absent by assumption. simpl. lia.
Qed.

(** ** Every statement keeps the invariants of the store *)

Lemma store_ok_same (pg : bool) (s s' : Store) :
  verses s' = verses s -> verses_seq s' = verses_seq s ->
  user_draws s' = user_draws s ->
  store_ok pg s -> store_ok pg s'.
Proof.
  intros Hv Hq Hd [H1 H2 H3 H4 H5].
  constructor; rewrite ?Hv, ?Hq, ?Hd; assumption.
Qed.

Lemma store_ok_empty (pg : bool) : store_ok pg sql.empty_store.
Proof.
  constructor; simpl; try constructor; intros; contradiction.
Qed.

Lemma store_ok_insert_admin (pg : bool) (u h : string) (s : Store) :
  store_ok pg s -> store_ok pg (sql.insert_admin u h s).
Proof.
  now apply store_ok_same.
Qed.

Lemma store_ok_insert_verse (pg : bool) (text reference : string) (now : Z)
  (s : Store) :
  store_ok pg s -> store_ok pg (snd (sql.insert_verse text reference now s)).
Proof.
  intros [H1 H2 H3 H4 H5]. constructor; simpl; auto.
  - rewrite map_app. simpl. apply NoDup_snoc; [assumption|].
    intros Hin. apply in_map_iff in Hin as (v & E & Hv).
    apply H2 in Hv. lia.
  - intros v Hv. apply in_app_iff in Hv as [Hv|[<-|[]]]; simpl; [|lia].
    apply H2 in Hv. lia.
  - intros Hpg ud Hud. rewrite map_app. apply in_app_iff. left. auto.
Qed.

Lemma store_ok_seed (pg : bool) (now : Z) (l : list (string * string)) :
  forall s, store_ok pg s ->
    store_ok pg
      (fold_left (fun s tr => snd (sql.insert_verse (fst tr) (snd tr) now s)) l s).
Proof.
  induction l as [|tr l IH]; simpl; intros s H; [assumption|].
  apply IH. now apply store_ok_insert_verse.
Qed.

Lemma store_ok_init_db (pg : bool) (h : string -> string) (now : Z) (db : Database) :
  store_ok pg (sql.create_tables_if_not_exist db) ->
  store_ok pg (database.init_db h now db).
Proof.
  intros H. unfold database.init_db.
  set (s0 := sql.create_tables_if_not_exist db) in *.
  assert (H1 : store_ok pg
                 (if sql.count (admin s0) =? 0
                  then sql.insert_admin "admin" (h "admin123") s0 else s0)).
  { destruct (sql.count (admin s0) =? 0); [now apply store_ok_insert_admin | assumption]. }
  destruct (sql.count (verses _) =? 0); [now apply store_ok_seed | assumption].
Qed.

Lemma store_ok_delete_verse (pg : bool) (verse_id : Z) (s : Store) :
  store_ok pg s -> store_ok pg (snd (sql.delete_verse pg verse_id s)).
Proof.
  intros H. unfold sql.delete_verse.
  destruct (pg && sql.has_verse verse_id s && sql.referenced verse_id s) eqn:E;
    [assumption|].
  destruct H as [H1 H2 H3 H4 H5]. constructor; simpl; auto.
  - now apply verse_ids_filter.
  - intros v Hv. apply filter_In in Hv as [Hv _]. auto.
  - intros Hpg ud Hud. subst pg. simpl in E.
    specialize (H5 eq_refl ud Hud).
    apply in_map_iff in H5 as (v & Ev & Hv).
    apply in_map_iff. exists v. split; [assumption|].
    apply filter_In. split; [assumption|].
    apply negb_true_iff, Z.eqb_neq. intros Eid.
    assert (Hh : sql.has_verse verse_id s = true).
    { apply has_verse_In. rewrite <- Eid. now apply in_map. }
    assert (Hr : sql.referenced verse_id s = true).
    { apply referenced_In. rewrite <- Eid, Ev. now apply in_map. }
    rewrite Hh, Hr in E. discriminate.
Qed.

Lemma store_ok_rejected (pg : bool) (s : Store) :
  store_ok pg s -> store_ok pg (sql.rejected pg s).
Proof.
  unfold sql.rejected. destruct pg; [|auto].
  now apply store_ok_same.
Qed.

Lemma store_ok_insert_user_draw (pg : bool) (email : string) (verse_id : Z)
  (first last : option string) (now : Z) (s : Store) :
  database.normalize email = email ->
  store_ok pg s ->
  store_ok pg (snd (sql.insert_user_draw pg email verse_id first last now s)).
Proof.
  intros Hn H. unfold sql.insert_user_draw.
  destruct (existsb _ (user_draws s)) eqn:Eu;
    [now apply store_ok_rejected|].
  destruct (pg && negb (sql.has_verse verse_id s)) eqn:Ef;
    [now apply store_ok_rejected|].
  destruct H as [H1 H2 H3 H4 H5]. constructor; simpl; auto.
  - rewrite map_app. simpl. apply NoDup_snoc; [assumption|].
    intros Hin. apply existsb_email_In in Hin. congruence.
  - intros ud Hud. apply in_app_iff in Hud as [Hud|[<-|[]]]; simpl; auto.
  - intros Hpg ud Hud. subst pg. simpl in Ef.
    apply in_app_iff in Hud as [Hud|[<-|[]]]; simpl; auto.
    apply has_verse_In. now apply negb_false_iff.
Qed.

Lemma store_ok_draw_finish (pg : bool) (email : string) (read : DrawRead)
  (first last : option string) (now : Z) (s : Store) :
  database.normalize email = email ->
  store_ok pg s ->
  store_ok pg (snd (database.draw_finish pg email read first last now s)).
Proof.
  intros Hn H. destruct read as [existing| |chosen]; simpl; auto.
  unfold database.draw_save.
  pose proof (store_ok_insert_user_draw pg email (d_id chosen) first last now s Hn H) as Hi.
  destruct (sql.insert_user_draw pg email (d_id chosen) first last now s) as [[[]|e] s'];
    exact Hi.
Qed.

Lemma store_ok_step (pg : bool) (s s' : Store) :
  store_ok pg s -> step pg s s' -> store_ok pg s'.
Proof.
  intros H Hs. destruct Hs.
  - now apply store_ok_init_db.
  - now apply store_ok_insert_verse.
  - unfold database.delete_verse.
    pose proof (store_ok_delete_verse pg verse_id s H) as Hd.
    destruct (sql.delete_verse pg verse_id s) as [[rc|e] s']; exact Hd.
  - apply store_ok_draw_finish; [apply normalize_idem | assumption].
  - apply store_ok_draw_finish; [apply normalize_idem | assumption].
Qed.

(** The invariants hold in every state the application reaches. *)
Lemma reachable_store_ok (pg : bool) (s : Store) :
  reachable pg s -> store_ok pg s.
Proof.
  induction 1 as [h now|s s' _ IH Hs].
  - apply store_ok_init_db, store_ok_empty.
  - now apply store_ok_step with (s := s).
Qed.

(** ** The join of draws and verses *)

Lemma join_length (vs : list Verse) (l : list UserDraw) :
  NoDup (map v_id vs) ->
  let j :=
    flat_map
      (fun ud => map (pair ud) (filter (fun v => ud_verse_id ud =? v_id v) vs)) l in
  (List.length j <= List.length l)%nat
  /\ ((List.length j < List.length l)%nat
      <-> exists ud, In ud l /\ ~ In (ud_verse_id ud) (map v_id vs)).
Proof.
  intros Hnd. induction l as [|ud l [IH1 IH2]]; simpl.
  - split; [lia|]. split; [lia | intros (ud & [] & _)].
  - set (j := flat_map _ l) in *.
    rewrite length_app, length_map.
    destruct (in_dec Z.eq_dec (ud_verse_id ud) (map v_id vs)) as [Hin|Hin].
    + apply in_map_iff in Hin as (v & Ev & Hv).
      rewrite <- Ev, filter_verse_id by assumption. simpl.
      split; [lia|]. split.
      * intros Hlt. assert (Hlt' : (List.length j < List.length l)%nat) by lia.
        apply IH2 in Hlt' as (ud' & Hud' & Hd). exists ud'. auto.
      * intros (ud' & [<-|Hud'] & Hd).
        -- exfalso. apply Hd. rewrite <- Ev. now apply in_map.
        -- assert (Hlt' : (List.length j < List.length l)%nat)
             by (apply IH2; eauto).
           lia.
    + rewrite filter_verse_id_absent by assumption. simpl.
      split; [lia|]. split; [|lia].
      intros _. exists ud. auto.
Qed.

(** Rows picked by a test that fixes the unique column: at most one. *)
Lemma filter_at_most_one {Row Key : Type} (key : Row -> Key) (p : Row -> bool)
  (l : list Row) :
  NoDup (map key l) ->
  (forall x y, In x l -> In y l -> p x = true -> p y = true -> key x = key y) ->
  (List.length (filter p l) <= 1)%nat.
Proof.
  induction l as [|x l IH]; simpl; intros Hnd Hp; [lia|].
  inversion Hnd as [|? ? Hx Hl]; subst.
  destruct (p x) eqn:Ex.
  - assert (E : filter p l = []).
    { destruct (filter p l) as [|y ys] eqn:Ef; [reflexivity|].
      assert (Hy : In y (filter p l)) by (rewrite Ef; now left).
      apply filter_In in Hy as [Hy Py].
      exfalso. apply Hx. rewrite (Hp x y); auto. now apply in_map. }
    simpl. rewrite E. simpl. lia.
  - apply IH; auto.
Qed.

(** ** One draw record per identity; the count and the listing *)

(** C3.  In every state the application reaches, an identity (a normalized
    email) has at most one draw record, also when the second half of a draw
    runs after other calls have written; and the uniqueness is the
    storage layer's: the insert statement itself, whatever it is given,
    raises on an email that is present and leaves [user_draws] as it is. *)
Theorem one_draw_per_identity (USE_POSTGRES : bool) :
  (forall s email,
     reachable USE_POSTGRES s -> (List.length (draws_of email s) <= 1)%nat)
  /\ (forall s email verse_id first last now,
        In email (map ud_email (user_draws s)) ->
        fst (sql.insert_user_draw USE_POSTGRES email verse_id first last now s)
          = Raise (IntegrityError unique_user_draws_email)
        /\ user_draws
             (snd (sql.insert_user_draw USE_POSTGRES email verse_id first last now s))
           = user_draws s).
Proof.
  split.
  - intros s email Hr. apply reachable_store_ok in Hr as [_ _ H3 H4 _].
    unfold draws_of. apply filter_at_most_one with (key := ud_email); [assumption|].
    intros x y Hx Hy Px Py.
    apply String.eqb_eq in Px, Py.
    rewrite <- (H4 x Hx), <- (H4 y Hy). congruence.
  - intros s email verse_id first last now Hin.
    apply existsb_email_In in Hin.
    unfold sql.insert_user_draw. rewrite Hin. simpl.
    split; [reflexivity|].
    unfold sql.rejected. destruct USE_POSTGRES; reflexivity.
Qed.

Lemma one_draw_per_identity_witness :
  reachable false demo_drawn
  /\ draws_of " FOO@bar.com" demo_drawn =
       [mkUserDraw 1 "foo@bar.com" 3 None None 2000]
  /\ (List.length (draws_of " FOO@bar.com" demo_drawn) <= 1)%nat.
Proof.
  assert (H : reachable false demo_drawn).
  { unfold demo_drawn. eapply reach_step; [apply reach_start | apply step_draw]. }
  split; [exact H|]. split; [reflexivity|].
  exact (proj1 (one_draw_per_identity false) demo_drawn " FOO@bar.com" H).
Defined.

Lemma get_all_draws_length (s : Store) :
  List.length (database.get_all_draws s) = List.length (sql.join_draws_verses s).
Proof.
  unfold database.get_all_draws. rewrite length_map.
  apply Permutation_length, order_by_desc_perm.
Qed.

Lemma reachable_demo_deleted : reachable false demo_deleted.
Proof.
  unfold demo_deleted, demo_drawn.
  eapply reach_step; [|apply step_delete_verse].
  eapply reach_step; [apply reach_start | apply step_draw].
Qed.

(** C10.  [get_draw_stats] counts the rows of [user_draws]; [get_all_draws]
    lists the rows of the inner join.  In every state the application
    reaches the count is at least the length of the listing, and it is
    greater exactly when some draw record refers to a verse that is gone. *)
Theorem total_draws_bounds_listing (USE_POSTGRES : bool) (s : Store) :
  reachable USE_POSTGRES s ->
  Z.of_nat (List.length (database.get_all_draws s))
    <= total_draws (database.get_draw_stats s)
  /\ (Z.of_nat (List.length (database.get_all_draws s))
        < total_draws (database.get_draw_stats s)
      <-> exists ud, In ud (user_draws s) /\ dangling s ud).
Proof.
  intros Hr. apply reachable_store_ok in Hr as [H1 _ _ _ _].
  rewrite get_all_draws_length. simpl. unfold sql.count, dangling.
  destruct (join_length (verses s) (user_draws s) H1) as [Hle Hlt].
  fold (sql.join_draws_verses s) in Hle, Hlt.
  split; [lia|].
  rewrite <- Hlt. lia.
Qed.

Lemma total_draws_bounds_listing_witness :
  database.get_all_draws demo_deleted = []
  /\ total_draws (database.get_draw_stats demo_deleted) = 1
  /\ (Z.of_nat (List.length (database.get_all_draws demo_deleted))
        < total_draws (database.get_draw_stats demo_deleted)
      <-> exists ud, In ud (user_draws demo_deleted) /\ dangling demo_deleted ud).
Proof.
  split; [reflexivity|]. split; [reflexivity|].
  exact (proj2 (total_draws_bounds_listing false demo_deleted reachable_demo_deleted)).
Defined.

(** ** Looking a draw up *)

Lemma join_In (s : Store) (ud : UserDraw) (v : Verse) :
  In (ud, v) (sql.join_draws_verses s)
  <-> In ud (user_draws s) /\ In v (verses s) /\ ud_verse_id ud = v_id v.
Proof.
  unfold sql.join_draws_verses. rewrite in_flat_map. split.
  - intros (ud' & Hud & Hj). apply in_map_iff in Hj as (v' & E & Hv).
    injection E as -> ->. apply filter_In in Hv as [Hv Eid].
    apply Z.eqb_eq in Eid. auto.
  - intros (Hud & Hv & Eid). exists ud. split; [assumption|].
    apply in_map. apply filter_In. split; [assumption | now apply Z.eqb_eq].
Qed.

(** No row of [user_draws] for the email: the lookup finds nothing. *)
Lemma check_user_draw_no_row (email : string) (s : Store) :
  ~ In (pystr.lower email) (map ud_email (user_draws s)) ->
  database.check_user_draw email s = None.
Proof.
  intros Hno. unfold database.check_user_draw.
  destruct (filter _ (sql.join_draws_verses s)) as [|[ud v] js] eqn:E; [reflexivity|].
  exfalso. apply Hno.
  assert (Hj : In (ud, v) (filter
    (fun j => String.eqb (ud_email (fst j)) (pystr.lower email))
    (sql.join_draws_verses s))) by (rewrite E; now left).
  apply filter_In in Hj as [Hj He]. simpl in He.
  apply String.eqb_eq in He. rewrite <- He.
  apply join_In in Hj as [Hud _]. now apply in_map.
Qed.

(** The only row of [user_draws] for the email points at no verse: the
    lookup finds nothing either. *)
Lemma check_user_draw_dangling (email : string) (s : Store) (ud : UserDraw) :
  NoDup (map ud_email (user_draws s)) ->
  In ud (user_draws s) ->
  ud_email ud = pystr.lower email ->
  dangling s ud ->
  database.check_user_draw email s = None.
Proof.
  intros Hnd Hud He Hd. unfold database.check_user_draw.
  destruct (filter _ (sql.join_draws_verses s)) as [|[ud' v] js] eqn:E; [reflexivity|].
  exfalso.
  assert (Hj : In (ud', v) (filter
    (fun j => String.eqb (ud_email (fst j)) (pystr.lower email))
    (sql.join_draws_verses s))) by (rewrite E; now left).
  apply filter_In in Hj as [Hj He']. simpl in He'.
  apply String.eqb_eq in He'.
  apply join_In in Hj as (Hud' & Hv & Eid).
  assert (ud' = ud).
  { apply (NoDup_map_inj ud_email (user_draws s)); auto. congruence. }
  subst ud'. apply Hd. rewrite Eid. now apply in_map.
Qed.

(** The last row of [user_draws] is the only one for the email and its
    verse is there: the lookup returns that verse with the draw. *)
Lemma check_user_draw_last (email : string) (s : Store) (l : list UserDraw)
  (ud : UserDraw) (v : Verse) :
  NoDup (map v_id (verses s)) ->
  user_draws s = (l ++ [ud])%list ->
  ~ In (pystr.lower email) (map ud_email l) ->
  ud_email ud = pystr.lower email ->
  In v (verses s) -> v_id v = ud_verse_id ud ->
  database.check_user_draw email s = Some (database.joined_row (ud, v)).
Proof.
  intros Hnd Hl Hno He Hv Eid.
  unfold database.check_user_draw, sql.join_draws_verses.
  rewrite Hl, flat_map_app, filter_app.
  set (p := fun j : UserDraw * Verse =>
              String.eqb (ud_email (fst j)) (pystr.lower email)).
  assert (E1 : filter p (flat_map (fun ud0 => map (pair ud0)
                (filter (fun v0 => ud_verse_id ud0 =? v_id v0) (verses s))) l) = []).
  { destruct (filter p _) as [|[ud' v'] js] eqn:E; [reflexivity|].
    exfalso. apply Hno.
    assert (Hj : In (ud', v') (filter p (flat_map (fun ud0 => map (pair ud0)
                (filter (fun v0 => ud_verse_id ud0 =? v_id v0) (verses s))) l)))
      by (rewrite E; now left).
    apply filter_In in Hj as [Hj He']. unfold p in He'. simpl in He'.
    apply String.eqb_eq in He'. rewrite <- He'.
    apply in_flat_map in Hj as (ud'' & Hud'' & Hj).
    apply in_map_iff in Hj as (v'' & Ej & _). injection Ej as -> ->.
    now apply in_map. }
  rewrite E1. simpl. rewrite app_nil_r, <- Eid, filter_verse_id by assumption.
  simpl. unfold p at 1. simpl. rewrite He, String.eqb_refl. reflexivity.
Qed.

(** [random.choice] returns one of the rows it is given. *)
Lemma choice_verse_row (rnd : nat) (v0 : Verse) (rest : list Verse) :
  exists v, In v (v0 :: rest)
    /\ database.choice rnd (database.verse_row v0) (map database.verse_row rest)
       = database.verse_row v.
Proof.
  exists (nth (rnd mod List.length (v0 :: rest)) (v0 :: rest) v0). split.
  - apply nth_In. apply Nat.mod_upper_bound. simpl. lia.
  - unfold database.choice.
    change (database.verse_row v0 :: map database.verse_row rest)
      with (map database.verse_row (v0 :: rest)).
    rewrite length_map. apply map_nth.
Qed.

(** ** The two halves of a draw *)

Lemma draw_read_fresh (email : string) (rnd : nat) (s : Store) :
  ~ In (database.normalize email) (map ud_email (user_draws s)) ->
  verses s <> [] ->
  exists v, In v (verses s)
    /\ database.draw_read (database.normalize email) rnd s
       = Chosen (database.verse_row v).
Proof.
  intros Hno Hvs. unfold database.draw_read.
  rewrite check_user_draw_no_row by (now rewrite lower_normalize).
  destruct (verses s) as [|v0 rest]; [contradiction|]. simpl.
  destruct (choice_verse_row rnd v0 rest) as (v & Hv & ->).
  now exists v.
Qed.

Lemma draw_save_ok (pg : bool) (email : string) (chosen : VerseDict)
  (first last : option string) (now : Z) (s : Store) :
  ~ In email (map ud_email (user_draws s)) ->
  In (d_id chosen) (map v_id (verses s)) ->
  database.draw_save pg email chosen first last now s
  = (Ok (Some (mkDrawResult chosen false)),
     {| verses := verses s; verses_seq := verses_seq s;
        user_draws :=
          user_draws s
          ++ [mkUserDraw (user_draws_seq s + 1) email (d_id chosen) first last now];
        user_draws_seq := user_draws_seq s + 1;
        admin := admin s; admin_seq := admin_seq s |}).
Proof.
  intros Hno Hv. unfold database.draw_save, sql.insert_user_draw.
  destruct (existsb _ (user_draws s)) eqn:E.
  - apply existsb_email_In in E. contradiction.
  - apply has_verse_In in Hv. rewrite Hv, andb_false_r. reflexivity.
Qed.

Lemma draw_save_duplicate (pg : bool) (email : string) (chosen : VerseDict)
  (first last : option string) (now : Z) (s : Store) :
  In email (map ud_email (user_draws s)) ->
  database.draw_save pg email chosen first last now s
  = (Raise (IntegrityError unique_user_draws_email), sql.rejected pg s).
Proof.
  intros Hin. unfold database.draw_save, sql.insert_user_draw.
  apply existsb_email_In in Hin. now rewrite Hin.
Qed.

(** The first draw of an identity. *)
Lemma draw_fresh (pg : bool) (email : string) (first last : option string)
  (rnd : nat) (now : Z) (s : Store) :
  ~ In (database.normalize email) (map ud_email (user_draws s)) ->
  verses s <> [] ->
  exists v, In v (verses s)
    /\ database.draw_verse_for_user pg email first last rnd now s
       = (Ok (Some (mkDrawResult (database.verse_row v) false)),
          {| verses := verses s; verses_seq := verses_seq s;
             user_draws :=
               user_draws s
               ++ [mkUserDraw (user_draws_seq s + 1) (database.normalize email)
                     (v_id v) first last now];
             user_draws_seq := user_draws_seq s + 1;
             admin := admin s; admin_seq := admin_seq s |}).
Proof.
  intros Hno Hvs.
  destruct (draw_read_fresh email rnd s Hno Hvs) as (v & Hv & Hread).
  exists v. split; [assumption|].
  unfold database.draw_verse_for_user. rewrite Hread. simpl.
  rewrite draw_save_ok; auto.
  simpl. now apply in_map.
Qed.

(** A later draw of an identity whose record is the last one written. *)
Lemma draw_again (pg : bool) (email : string) (first last : option string)
  (rnd : nat) (now : Z) (s : Store) (l : list UserDraw) (ud : UserDraw)
  (v : Verse) :
  NoDup (map v_id (verses s)) ->
  user_draws s = (l ++ [ud])%list ->
  ~ In (database.normalize email) (map ud_email l) ->
  ud_email ud = database.normalize email ->
  In v (verses s) -> v_id v = ud_verse_id ud ->
  database.draw_verse_for_user pg email first last rnd now s
  = (Ok (Some (mkDrawResult (database.joined_row (ud, v)) true)), s).
Proof.
  intros Hnd Hl Hno He Hv Eid.
  unfold database.draw_verse_for_user, database.draw_read.
  rewrite (check_user_draw_last (database.normalize email) s l ud v);
    rewrite ?lower_normalize; auto.
Qed.

(** The first draw of an identity and a later one, at the database layer. *)
Lemma draw_then_draw_again (pg : bool) (s : Store)
  (email1 email2 : string) (first1 last1 first2 last2 : option string)
  (rnd1 rnd2 : nat) (now1 now2 : Z) :
  NoDup (map v_id (verses s)) ->
  database.normalize email1 = database.normalize email2 ->
  ~ In (database.normalize email1) (map ud_email (user_draws s)) ->
  verses s <> [] ->
  exists verse1 verse2 s1,
    database.draw_verse_for_user pg email1 first1 last1 rnd1 now1 s
      = (Ok (Some (mkDrawResult verse1 false)), s1)
    /\ database.draw_verse_for_user pg email2 first2 last2 rnd2 now2 s1
       = (Ok (Some (mkDrawResult verse2 true)), s1)
    /\ d_id verse2 = d_id verse1
    /\ d_text verse2 = d_text verse1
    /\ d_reference verse2 = d_reference verse1.
Proof.
  intros Hids Hsame Hno Hvs.
  destruct (draw_fresh pg email1 first1 last1 rnd1 now1 s Hno Hvs)
    as (v & Hv & Hfirst).
  rewrite Hfirst.
  eexists _, _, _. split; [reflexivity|]. split.
  - eapply draw_again with (v := v); simpl; try reflexivity; try assumption.
    now rewrite <- Hsame.
  - simpl. auto.
Qed.

(** C1.  An identity that has no draw record yet draws while there are
    verses, then draws again under an email that differs from the first in
    letter case and surrounding whitespace only.  [draw_verse_for_user]
    returns a verse tagged [already_drawn = false] the first time and the
    verse of the same id, text and reference tagged [already_drawn = true]
    the second time, and the second call leaves the store as it found it.
    When the first email is well-formed the endpoint accepts both and
    answers with these results. *)
Theorem draw_twice_same_verse (USE_POSTGRES : bool) (s : Store)
  (email1 email2 : string) (rnd1 rnd2 : nat) (now1 now2 : Z) :
  reachable USE_POSTGRES s ->
  database.normalize email1 = database.normalize email2 ->
  ~ In (database.normalize email1) (map ud_email (user_draws s)) ->
  verses s <> [] ->
  (forall first1 last1 first2 last2,
   exists verse1 verse2 s1,
     database.draw_verse_for_user USE_POSTGRES email1 first1 last1 rnd1 now1 s
       = (Ok (Some (mkDrawResult verse1 false)), s1)
     /\ database.draw_verse_for_user USE_POSTGRES email2 first2 last2 rnd2 now2 s1
        = (Ok (Some (mkDrawResult verse2 true)), s1)
     /\ d_id verse2 = d_id verse1
     /\ d_text verse2 = d_text verse1
     /\ d_reference verse2 = d_reference verse1)
  /\ (app.is_valid_email (pystr.strip email1) = true ->
      forall data1 data2,
        req_email data1 = Some email1 -> req_email data2 = Some email2 ->
        exists verse1 verse2 s1,
          app.draw_verse USE_POSTGRES (Some data1) rnd1 now1 s
            = (mkResponse 200 (Drawn verse1 false), s1)
          /\ app.draw_verse USE_POSTGRES (Some data2) rnd2 now2 s1
             = (mkResponse 200 (Drawn verse2 true), s1)
          /\ d_id verse2 = d_id verse1
          /\ d_text verse2 = d_text verse1
          /\ d_reference verse2 = d_reference verse1).
Proof.
  intros Hr Hsame Hno Hvs.
  apply reachable_store_ok in Hr as [Hids _ _ _ _].
  split.
  - intros first1 last1 first2 last2.
    now apply draw_then_draw_again.
  - intros Hvalid1 data1 data2 Hraw1 Hraw2.
    assert (Hvalid2 : app.is_valid_email (pystr.strip email2) = true)
      by now rewrite <- (is_valid_email_normalize email1 email2 Hsame).
    unfold app.draw_verse. rewrite Hraw1, Hraw2, Hvalid1, Hvalid2. simpl.
    destruct (draw_then_draw_again USE_POSTGRES s
                (pystr.strip email1) (pystr.strip email2)
                (pystr.or_none (pystr.strip (app.get_or_empty (req_first_name data1))))
                (pystr.or_none (pystr.strip (app.get_or_empty (req_last_name data1))))
                (pystr.or_none (pystr.strip (app.get_or_empty (req_first_name data2))))
                (pystr.or_none (pystr.strip (app.get_or_empty (req_last_name data2))))
                rnd1 rnd2 now1 now2)
      as (verse1 & verse2 & s1 & E1 & E2 & Hsame_verse); auto.
    + now rewrite !normalize_strip.
    + now rewrite normalize_strip.
    + rewrite E1. exists verse1, verse2, s1. now rewrite E2.
Qed.

Lemma draw_twice_same_verse_witness :
  exists verse1 verse2 s1,
    app.draw_verse false (Some (mkDrawRequest (Some "Foo@Bar.com") None None))
      10 2000 demo_start
      = (mkResponse 200 (Drawn verse1 false), s1)
    /\ app.draw_verse false
         (Some (mkDrawRequest (Some "foo@bar.com ") (Some "Foo") None)) 4 3000 s1
       = (mkResponse 200 (Drawn verse2 true), s1)
    /\ d_id verse2 = d_id verse1
    /\ d_text verse2 = d_text verse1
    /\ d_reference verse2 = d_reference verse1.
Proof.
  refine (proj2 (draw_twice_same_verse false demo_start
                   "Foo@Bar.com" "foo@bar.com " 10 4 2000 3000 _ _ _ _)
            _ _ _ _ _).
  - apply reach_start.
  - reflexivity.
  - simpl. tauto.
  - discriminate.
  - reflexivity.
  - reflexivity.
  - reflexivity.
Defined.




(** ** Listing the draws after a verse is deleted *)

(** Whatever verse is deleted, [get_all_draws] has no row left for it. *)
Lemma get_all_draws_after_delete (verse_id : Z) (s s' : Store) (deleted : bool) :
  database.delete_verse false verse_id s = (Ok deleted, s') ->
  forall r, In r (database.get_all_draws s') -> r_verse_id r <> verse_id.
Proof.
  unfold database.delete_verse, sql.delete_verse. simpl.
  intros E r Hr. injection E as _ <-.
  unfold database.get_all_draws in Hr.
  apply in_map_iff in Hr as ([ud v] & <- & Hj).
  apply (Permutation_in _ (order_by_desc_perm _ _)) in Hj.
  apply join_In in Hj as (_ & Hv & Eid). simpl in *.
  apply filter_In in Hv as [_ Hne].
  apply negb_true_iff, Z.eqb_neq in Hne. congruence.
Qed.

(** C4, what the code does.  [foo@bar.com] has drawn verse 3; the
    administrator deletes verse 3 on SQLite.  The draw record is still in
    [user_draws] and [get_draw_stats] counts it, but [get_all_draws], which
    by its docstring returns all draws, returns none: the inner join drops
    the record instead of returning it with the verse fields left out. *)
Theorem list_draws_drops_draw_of_deleted_verse :
  database.delete_verse false 3 demo_drawn = (Ok true, demo_deleted)
  /\ user_draws demo_deleted = [mkUserDraw 1 "foo@bar.com" 3 None None 2000]
  /\ total_draws (database.get_draw_stats demo_deleted) = 1
  /\ database.get_all_draws demo_deleted = []
  /\ app.admin_draws true demo_deleted = mkResponse 200 (DrawList []).
Proof.
  repeat split; reflexivity.
Qed.

(** ** The draw endpoint refuses *)

Lemma join_no_verses (s : Store) :
  verses s = [] -> sql.join_draws_verses s = [].
Proof.
  intros H. unfold sql.join_draws_verses. rewrite H.
  induction (user_draws s) as [|ud l IH]; simpl; auto.
Qed.

(** C5.  With no verse in the pool [draw_verse_for_user] returns [None]
    and writes nothing, whoever calls; the endpoint turns that into the
    404 answer, and the store is the one it was given. *)
Theorem empty_pool_no_draw (USE_POSTGRES : bool) (s : Store) (email : string)
  (first last : option string) (rnd : nat) (now : Z) :
  verses s = [] ->
  database.draw_verse_for_user USE_POSTGRES email first last rnd now s
    = (Ok None, s)
  /\ (forall data raw,
        req_email data = Some raw ->
        app.is_valid_email (pystr.strip raw) = true ->
        app.draw_verse USE_POSTGRES (Some data) rnd now s
        = (mkResponse 404
             (Failure "Aucun verset disponible. Contactez l'administrateur."),
           s)).
Proof.
  intros Hv.
  assert (Hdraw : forall e f l,
             database.draw_verse_for_user USE_POSTGRES e f l rnd now s = (Ok None, s)).
  { intros e f l.
    unfold database.draw_verse_for_user, database.draw_read,
      database.check_user_draw.
    rewrite (join_no_verses s Hv), Hv. reflexivity. }
  split; [apply Hdraw|].
  intros data raw Hraw Hvalid. unfold app.draw_verse.
  now rewrite Hraw, Hvalid, Hdraw.
Qed.

Lemma empty_pool_no_draw_witness :
  database.draw_verse_for_user false "new@user.org" None None 7 3000 demo_no_verses
    = (Ok None, demo_no_verses)
  /\ app.draw_verse false (Some (mkDrawRequest (Some " new@user.org") None None))
       7 3000 demo_no_verses
     = (mkResponse 404
          (Failure "Aucun verset disponible. Contactez l'administrateur."),
        demo_no_verses).
Proof.
  destruct (empty_pool_no_draw false demo_no_verses "new@user.org" None None 7 3000
              eq_refl) as [H1 H2].
  split; [exact H1|].
  exact (H2 (mkDrawRequest (Some " new@user.org") None None) " new@user.org"
            eq_refl eq_refl).
Defined.

(** C6.  An email that, once stripped, the validation pattern does not
    match, or that has not the shape local-part [@] domain [.] tld with a
    tld of two characters or more, gets the 400 answer of the draw
    endpoint, and the store is the one the endpoint was given: no draw
    record is created. *)
Theorem malformed_email_rejected (USE_POSTGRES : bool) (s : Store)
  (data : DrawRequest) (raw : string) (rnd : nat) (now : Z) :
  req_email data = Some raw ->
  app.is_valid_email (pystr.strip raw) = false \/ ~ email_shape (pystr.strip raw) ->
  app.draw_verse USE_POSTGRES (Some data) rnd now s
  = (mkResponse 400 (Failure "Format d'email invalide"), s).
Proof.
  intros Hraw Hbad.
  assert (Hinvalid : app.is_valid_email (pystr.strip raw) = false).
  { destruct Hbad as [H|H]; [assumption|].
    destruct (app.is_valid_email (pystr.strip raw)) eqn:E; [|reflexivity].
    exfalso. now apply H, is_valid_email_shape. }
  unfold app.draw_verse. now rewrite Hraw, Hinvalid.
Qed.

Lemma malformed_email_rejected_witness :
  app.draw_verse false (Some (mkDrawRequest (Some " foo@bar ") (Some "Jo") None))
    10 2000 demo_start
  = (mkResponse 400 (Failure "Format d'email invalide"), demo_start).
Proof.
  apply (malformed_email_rejected false demo_start
           (mkDrawRequest (Some " foo@bar ") (Some "Jo") None) " foo@bar ").
  - reflexivity.
  - left. reflexivity.
Defined.

(** ** Adding and deleting a verse *)

Lemma filter_below_seq (q : Z) (vs : list Verse) :
  (forall v, In v vs -> v_id v <= q) ->
  filter (fun v => negb (v_id v =? q + 1)) vs = vs.
Proof.
  induction vs as [|v vs IH]; simpl; intros H; [reflexivity|].
  assert (E : (v_id v =? q + 1) = false).
  { apply Z.eqb_neq. specialize (H v (or_introl eq_refl)). lia. }
  rewrite E. simpl. f_equal. auto.
Qed.

Lemma no_reference_above_seq (s : Store) :
  store_ok true s -> sql.referenced (verses_seq s + 1) s = false.
Proof.
  intros [_ H2 _ _ H5].
  destruct (sql.referenced (verses_seq s + 1) s) eqn:E; [|reflexivity].
  apply referenced_In, in_map_iff in E as (ud & Eid & Hud).
  specialize (H5 eq_refl ud Hud).
  apply in_map_iff in H5 as (v & Ev & Hv).
  apply H2 in Hv. lia.
Qed.

(** C7.  [add_verse] then [get_all_verses]: the new verse is the first of
    the list.  [delete_verse] of its id succeeds, and [get_all_verses] has
    no verse of that id any more.  A second [delete_verse] of the id
    reports that nothing was deleted, which the endpoint answers with 404,
    and changes nothing. *)
Theorem add_list_delete_verse (USE_POSTGRES : bool) (s : Store)
  (text reference : string) (now : Z) :
  reachable USE_POSTGRES s ->
  exists verse_id s1 s2,
    database.add_verse text reference now s = (verse_id, s1)
    /\ database.get_all_verses s1
       = mkVerse verse_id text reference now :: database.get_all_verses s
    /\ database.delete_verse USE_POSTGRES verse_id s1 = (Ok true, s2)
    /\ (forall v, In v (database.get_all_verses s2) -> v_id v <> verse_id)
    /\ database.delete_verse USE_POSTGRES verse_id s2 = (Ok false, s2)
    /\ app.delete_verse USE_POSTGRES true verse_id s2
       = (mkResponse 404 (Failure "Verset non trouvé"), s2).
Proof.
  intros Hr. apply reachable_store_ok in Hr as Hok.
  pose proof (ok_verse_seq _ _ Hok) as Hseq.
  set (id := verses_seq s + 1).
  set (s2 := {| verses := verses s; verses_seq := id;
                user_draws := user_draws s; user_draws_seq := user_draws_seq s;
                admin := admin s; admin_seq := admin_seq s |}).
  assert (Hfree : USE_POSTGRES && sql.has_verse id (snd (database.add_verse text reference now s))
                  && sql.referenced id (snd (database.add_verse text reference now s)) = false).
  { destruct USE_POSTGRES; [|reflexivity].
    change (sql.referenced id (snd (database.add_verse text reference now s)))
      with (sql.referenced id s).
    unfold id. rewrite (no_reference_above_seq s Hok). apply andb_false_r. }
  assert (Hgone : sql.has_verse id s2 = false).
  { destruct (sql.has_verse id s2) eqn:E; [|reflexivity].
    apply has_verse_In, in_map_iff in E as (v & Ev & Hv).
    simpl in Hv. apply Hseq in Hv. unfold id in Ev. lia. }
  assert (Hdel1 : database.delete_verse USE_POSTGRES id
                    (snd (database.add_verse text reference now s)) = (Ok true, s2)).
  { unfold database.delete_verse, sql.delete_verse. rewrite Hfree. simpl.
    rewrite filter_app. unfold id at 1 3. rewrite filter_below_seq by assumption.
    simpl. rewrite Z.eqb_refl. simpl. rewrite app_nil_r.
    unfold sql.count. rewrite length_app. simpl.
    replace (0 <? Z.of_nat (List.length (verses s) + 1)
                  - Z.of_nat (List.length (verses s))) with true
      by (symmetry; apply Z.ltb_lt; lia).
    reflexivity. }
  assert (Hdel2 : database.delete_verse USE_POSTGRES id s2 = (Ok false, s2)).
  { unfold database.delete_verse, sql.delete_verse.
    rewrite Hgone, andb_false_r. simpl.
    unfold id at 1 2. rewrite filter_below_seq by assumption.
    rewrite Z.sub_diag. reflexivity. }
  exists id, (snd (database.add_verse text reference now s)), s2.
  split; [reflexivity|]. split.
  { unfold database.get_all_verses. simpl.
    apply order_by_desc_snoc_max. intros v Hv. apply Hseq in Hv. simpl.
    unfold id. lia. }
  split; [exact Hdel1|]. split.
  { intros v Hv. unfold database.get_all_verses in Hv.
    apply (Permutation_in _ (order_by_desc_perm _ _)) in Hv.
    simpl in Hv. apply Hseq in Hv. unfold id. lia. }
  split; [exact Hdel2|].
  unfold app.delete_verse. simpl. now rewrite Hdel2.
Qed.

Lemma add_list_delete_verse_witness :
  exists verse_id s1 s2,
    database.add_verse "text" "Ref 1:1" 2500 demo_drawn = (verse_id, s1)
    /\ database.get_all_verses s1
       = mkVerse verse_id "text" "Ref 1:1" 2500 :: database.get_all_verses demo_drawn
    /\ database.delete_verse false verse_id s1 = (Ok true, s2)
    /\ (forall v, In v (database.get_all_verses s2) -> v_id v <> verse_id)
    /\ database.delete_verse false verse_id s2 = (Ok false, s2)
    /\ app.delete_verse false true verse_id s2
       = (mkResponse 404 (Failure "Verset non trouvé"), s2).
Proof.
  apply (add_list_delete_verse false demo_drawn "text" "Ref 1:1" 2500).
  unfold demo_drawn.
  eapply reach_step; [apply reach_start | apply step_draw].
Defined.

(** ** Initialization *)

Lemma seed_admin (now : Z) (l : list (string * string)) :
  forall s,
    admin (fold_left (fun s tr => snd (sql.insert_verse (fst tr) (snd tr) now s)) l s)
    = admin s.
Proof.
  induction l as [|tr l IH]; simpl; intros s; [reflexivity|].
  now rewrite IH.
Qed.







(** ** Drawing again after the verse was deleted *)

Lemma reachable_deletes (pg : bool) (ids : list Z) :
  forall s, reachable pg s ->
    reachable pg
      (fold_left (fun s verse_id => snd (database.delete_verse pg verse_id s)) ids s).
Proof.
  induction ids as [|verse_id ids IH]; simpl; intros s H; [assumption|].
  apply IH. eapply reach_step; [exact H | apply step_delete_verse].
Qed.

Lemma reachable_demo_no_verses : reachable false demo_no_verses.
Proof.
  unfold demo_no_verses. apply reachable_deletes.
  unfold demo_drawn.
  eapply reach_step; [apply reach_start | apply step_draw].
Qed.

(** C8 as stated does not hold for every store that was initialized: in
    the store the application reaches when the administrator has deleted
    every verse, the admin is there and [init_db] has run, yet a further
    run of [init_db] writes eight rows to [verses], under the ids 9 to 16,
    and so does not leave the store unchanged. *)
Lemma init_db_changes_emptied_store :
  reachable false demo_no_verses
  /\ admin demo_no_verses = [mkAdmin 1 "admin" (demo_hash "admin123")]
  /\ verses demo_no_verses = []
  /\ map v_id (verses (database.init_db demo_hash 5000 (Tables demo_no_verses)))
     = [9; 10; 11; 12; 13; 14; 15; 16]
  /\ database.init_db demo_hash 5000 (Tables demo_no_verses) <> demo_no_verses.
Proof.
  split; [exact reachable_demo_no_verses|].
  split; [reflexivity|]. split; [reflexivity|]. split; [reflexivity|].
  intros H. apply (f_equal verses) in H. discriminate H.
Qed.

(** C9 as stated does not hold when the deleted verse was the last one:
    [foo@bar.com] has a draw record whose verse is gone, the lookup finds
    nothing, but with no verse left the call returns [None] (the endpoint
    answers 404) before any insert; no error is raised. *)
Lemma redraw_with_no_verses_is_not_an_error :
  reachable false demo_no_verses
  /\ (exists ud, In ud (user_draws demo_no_verses)
        /\ ud_email ud = database.normalize "foo@bar.com"
        /\ dangling demo_no_verses ud)
  /\ database.check_user_draw (database.normalize "foo@bar.com") demo_no_verses
     = None
  /\ database.draw_verse_for_user false "foo@bar.com" None None 4 3000
       demo_no_verses
     = (Ok None, demo_no_verses)
  /\ ~ (exists e s',
          database.draw_verse_for_user false "foo@bar.com" None None 4 3000
            demo_no_verses
          = (Raise e, s')).
Proof.
  split; [exact reachable_demo_no_verses|]. split.
  { exists (mkUserDraw 1 "foo@bar.com" 3 None None 2000).
    split; [now left|]. split; [reflexivity|]. intros []. }
  split; [reflexivity|]. split; [reflexivity|].
  intros (e & s' & H). discriminate H.
Qed.

(** C9, amended.  An identity has a draw record whose verse is gone.  The
    lookup of [draw_verse_for_user], an inner join of draws and verses,
    finds no record.  While there are verses the call chooses one and
    inserts; the insert violates the unique constraint on the email and the
    [IntegrityError] leaves the call, where an idempotent re-read would
    have returned the record.  With no verse left the call returns [None]
    and attempts no insert.  Either way the store stays as it was. *)
Theorem redraw_after_verse_deleted (USE_POSTGRES : bool) (s : Store)
  (email : string) (first last : option string) (rnd : nat) (now : Z)
  (ud : UserDraw) :
  reachable USE_POSTGRES s ->
  In ud (user_draws s) ->
  ud_email ud = database.normalize email ->
  dangling s ud ->
  database.check_user_draw (database.normalize email) s = None
  /\ (verses s <> [] ->
      (exists chosen,
         database.draw_read (database.normalize email) rnd s = Chosen chosen)
      /\ database.draw_verse_for_user USE_POSTGRES email first last rnd now s
         = (Raise (IntegrityError unique_user_draws_email), s))
  /\ (verses s = [] ->
      database.draw_verse_for_user USE_POSTGRES email first last rnd now s
      = (Ok None, s)).
Proof.
  intros Hr Hud He Hd.
  apply reachable_store_ok in Hr as Hok.
  assert (Hpg : USE_POSTGRES = false).
  { destruct USE_POSTGRES; [|reflexivity].
    exfalso. apply Hd. now apply (ok_foreign_key _ _ Hok). }
  subst USE_POSTGRES.
  assert (Hnone : database.check_user_draw (database.normalize email) s = None).
  { apply check_user_draw_dangling with (ud := ud); auto.
    - apply (ok_emails _ _ Hok).
    - now rewrite lower_normalize. }
  split; [assumption|]. split.
  - intros Hvs.
    assert (Hread : exists chosen,
               database.draw_read (database.normalize email) rnd s = Chosen chosen).
    { unfold database.draw_read. rewrite Hnone.
      destruct (verses s) as [|v0 rest]; [contradiction|]. simpl. eauto. }
    split; [assumption|].
    destruct Hread as (chosen & Hread).
    unfold database.draw_verse_for_user. rewrite Hread. simpl.
    rewrite draw_save_duplicate; [reflexivity|].
    rewrite <- He. now apply in_map.
  - intros Hvs.
    unfold database.draw_verse_for_user, database.draw_read.
    rewrite Hnone, Hvs. reflexivity.
Qed.

Lemma redraw_after_verse_deleted_witness :
  database.check_user_draw (database.normalize "FOO@bar.com ") demo_deleted = None
  /\ database.draw_verse_for_user false "FOO@bar.com " None None 4 3000 demo_deleted
     = (Raise (IntegrityError unique_user_draws_email), demo_deleted).
Proof.
  destruct (redraw_after_verse_deleted false demo_deleted "FOO@bar.com " None None
              4 3000 (mkUserDraw 1 "foo@bar.com" 3 None None 2000))
    as (Hnone & Hraise & _).
  - exact reachable_demo_deleted.
  - now left.
  - reflexivity.
  - unfold dangling. simpl. intuition discriminate.
  - split; [exact Hnone|]. apply Hraise. discriminate.
Defined.

(** * Further properties of the code *)

(** ** What [is_valid_email] accepts *)

Lemma append_empty_r (s : string) : s ++ EmptyString = s.
Proof.
  induction s as [|c s IH]; simpl; [reflexivity | now rewrite IH].
Qed.

Lemma append_is_empty (a b : string) :
  a ++ b = EmptyString -> a = EmptyString /\ b = EmptyString.
Proof.
  destruct a; simpl; intros H; [auto | discriminate].
Qed.

Lemma Lang_nullable (r : re.regex) (s : string) :
  re.Lang r s -> s = EmptyString -> re.nullable r = true.
Proof.
  induction 1 as [|p c Hp|r1 r2 s1 s2 _ IH1 _ IH2|r1 r2 s _ IH|r1 r2 s _ IH
                 |r|r s1 s2 _ _ _ _]; intros E; simpl; try reflexivity.
  - discriminate.
  - apply append_is_empty in E as [E1 E2]. now rewrite IH1, IH2.
  - now rewrite IH.
  - rewrite IH by assumption. apply orb_true_r.
Qed.

Lemma Lang_deriv (r : re.regex) (t : string) :
  re.Lang r t -> forall c s, t = String c s -> re.Lang (re.deriv c r) s.
Proof.
  induction 1 as [|p c' Hp|r1 r2 s1 s2 H1 IH1 H2 IH2|r1 r2 s' _ IH|r1 r2 s' _ IH
                 |r|r s1 s2 H1 IH1 H2 IH2]; intros c s E; simpl.
  - discriminate.
  - injection E as -> <-. rewrite Hp. constructor.
  - destruct s1 as [|c1 s1'].
    + simpl in E. rewrite (Lang_nullable r1 EmptyString H1 eq_refl).
      apply re.LAltR. now apply IH2.
    + simpl in E. injection E as -> <-.
      assert (Hcat : re.Lang (re.Cat (re.deriv c r1) r2) (s1' ++ s2))
        by (constructor; auto).
      destruct (re.nullable r1); [now apply re.LAltL | assumption].
  - apply re.LAltL. now apply IH.
  - apply re.LAltR. now apply IH.
  - discriminate.
  - destruct s1 as [|c1 s1'].
    + simpl in E. now apply IH2.
    + simpl in E. injection E as -> <-. constructor; auto.
Qed.

Lemma fullmatch_complete (s : string) :
  forall r, re.Lang r s -> re.fullmatch r s = true.
Proof.
  induction s as [|c s IH]; simpl; intros r H.
  - now apply (Lang_nullable r EmptyString).
  - apply IH. now apply (Lang_deriv r (String c s)).
Qed.

Lemma Lang_star_class (p : ascii -> bool) (s : string) :
  re.Lang (re.Star (re.Cls p)) s <-> all_chars p s = true.
Proof.
  split.
  - intros H. remember (re.Star (re.Cls p)) as r eqn:Er.
    induction H as [| | | | |r'|r' s1 s2 H1 _ H2 IH2]; try discriminate.
    + reflexivity.
    + injection Er as ->. inversion H1; subst. simpl.
      rewrite IH2 by reflexivity. now rewrite andb_true_r.
  - induction s as [|c s IH]; simpl; intros H; [constructor|].
    apply andb_true_iff in H as [Hc Hs].
    change (String c s) with (String c EmptyString ++ s).
    constructor; [now constructor | auto].
Qed.

Lemma Lang_plus_class (p : ascii -> bool) (s : string) :
  re.Lang (re.Plus (re.Cls p)) s <-> s <> EmptyString /\ all_chars p s = true.
Proof.
  unfold re.Plus. split.
  - intros H. inversion H as [| |? ? s1 s2 H1 H2| | | |]; subst.
    inversion H1; subst. apply Lang_star_class in H2. simpl.
    split; [discriminate|]. now apply andb_true_iff.
  - intros [Hne H]. destruct s as [|c s]; [contradiction|].
    simpl in H. apply andb_true_iff in H as [Hc Hs].
    change (String c s) with (String c EmptyString ++ s).
    constructor; [now constructor | now apply Lang_star_class].
Qed.

Lemma Lang_at_least2_class (p : ascii -> bool) (s : string) :
  re.Lang (re.AtLeast2 (re.Cls p)) s
  <-> all_chars p s = true /\ (2 <= String.length s)%nat.
Proof.
  unfold re.AtLeast2. split.
  - intros H. inversion H as [| |? ? s1 s2 H1 H2| | | |]; subst.
    apply (proj1 (Lang_plus_class p s2)) in H2 as [Hne H2].
    inversion H1; subst. simpl. split; [now apply andb_true_iff|].
    destruct s2; [contradiction | simpl; lia].
  - intros [H Hlen]. destruct s as [|c s]; [simpl in Hlen; lia|].
    simpl in H. apply andb_true_iff in H as [Hc Hs].
    change (String c s) with (String c EmptyString ++ s).
    constructor; [now constructor|].
    apply (proj2 (Lang_plus_class p s)). split; [|assumption].
    destruct s; [simpl in Hlen; lia | discriminate].
Qed.

Lemma Lang_char (c : ascii) (s : string) :
  re.Lang (re.Chr c) s <-> s = String c EmptyString.
Proof.
  unfold re.Chr. split.
  - intros H. inversion H as [|? c' E| | | | |]; subst.
    apply Ascii.eqb_eq in E. now subst.
  - intros ->. constructor. apply Ascii.eqb_refl.
Qed.

(** The strings of the pattern, part by part. *)
Lemma Lang_pattern (s : string) :
  re.Lang app.pattern s
  <-> exists l d t, pattern_parts l d t /\ s = address l d t.
Proof.
  unfold app.pattern, pattern_parts, address. split.
  - intros H.
    inversion H as [| |? ? l rest Hl Hrest| | | |]; subst; clear H.
    inversion Hrest as [| |? ? at_ rest2 Hat Hrest2| | | |]; subst; clear Hrest.
    inversion Hrest2 as [| |? ? d rest3 Hd Hrest3| | | |]; subst; clear Hrest2.
    inversion Hrest3 as [| |? ? dot t Hdot Ht| | | |]; subst; clear Hrest3.
    apply Lang_char in Hat, Hdot. subst.
    apply Lang_plus_class in Hl as [Hl1 Hl2], Hd as [Hd1 Hd2].
    apply Lang_at_least2_class in Ht as [Ht1 Ht2].
    exists l, d, t. auto 10.
  - intros (l & d & t & (Hl1 & Hl2 & Hd1 & Hd2 & Ht1 & Ht2) & ->).
    constructor; [now apply Lang_plus_class|].
    constructor; [now apply Lang_char|].
    constructor; [now apply Lang_plus_class|].
    constructor; [now apply Lang_char|].
    now apply Lang_at_least2_class.
Qed.

Lemma before_final_newline_append (s : string) :
  re.before_final_newline (s ++ String "010" EmptyString) = Some s.
Proof.
  induction s as [|c s IH]; [reflexivity|].
  change (String c s ++ String "010" EmptyString)
    with (String c (s ++ String "010" EmptyString)).
  destruct (s ++ String "010" EmptyString) as [|c' r'] eqn:E.
  - destruct s; discriminate.
  - change (re.before_final_newline (String c (String c' r')))
      with (match re.before_final_newline (String c' r') with
            | Some r'' => Some (String c r'')
            | None => None
            end).
    now rewrite IH.
Qed.

(** X1.  [is_valid_email] accepts exactly the addresses made of a
    non-empty local part of [[a-zA-Z0-9._%+-]], an [@], a non-empty
    [[a-zA-Z0-9.-]], a dot and two letters or more, and the same followed by
    one newline. *)
Theorem is_valid_email_exactly (email : string) :
  app.is_valid_email email = true
  <-> exists l d t,
        pattern_parts l d t
        /\ (email = address l d t
            \/ email = address l d t ++ String "010" EmptyString).
Proof.
  unfold app.is_valid_email, re.match_anchored. split.
  - intros H. apply orb_true_iff in H as [H|H].
    + apply fullmatch_sound, Lang_pattern in H as (l & d & t & Hp & ->).
      exists l, d, t. auto.
    + destruct (re.before_final_newline email) as [s'|] eqn:E; [|discriminate].
      apply before_final_newline_spec in E. subst.
      apply fullmatch_sound, Lang_pattern in H as (l & d & t & Hp & ->).
      exists l, d, t. auto.
  - intros (l & d & t & Hp & [->| ->]); apply orb_true_iff.
    + left. apply fullmatch_complete, Lang_pattern. eauto.
    + right. rewrite before_final_newline_append.
      apply fullmatch_complete, Lang_pattern. eauto.
Qed.

(** ** The endpoint strips before it validates *)

Lemma lstrip_length (s : string) :
  (String.length (pystr.lstrip s) <= String.length s)%nat.
Proof.
  induction s as [|c s IH]; simpl; [lia|].
  destruct (pystr.is_space c); simpl; lia.
Qed.

Lemma rstrip_length (s : string) :
  (String.length (pystr.rstrip s) <= String.length s)%nat.
Proof.
  induction s as [|c s IH]; simpl; [lia|].
  destruct (pystr.rstrip s) as [|c' r'].
  - destruct (pystr.is_space c); simpl; lia.
  - simpl in *. lia.
Qed.

Lemma rstrip_trailing_space (s : string) (c : ascii) :
  pystr.is_space c = true ->
  pystr.rstrip (s ++ String c EmptyString) = pystr.rstrip s.
Proof.
  intros Hc. induction s as [|x s IH]; simpl.
  - now rewrite Hc.
  - now rewrite IH.
Qed.

(** A stripped string does not end with a newline. *)
Lemma strip_no_final_newline (s : string) :
  re.before_final_newline (pystr.strip s) = None.
Proof.
  destruct (re.before_final_newline (pystr.strip s)) as [u|] eqn:E; [|reflexivity].
  exfalso. apply before_final_newline_spec in E.
  pose proof (strip_idem s) as Hidem. rewrite E in Hidem.
  unfold pystr.strip at 1 in Hidem.
  rewrite rstrip_trailing_space in Hidem by reflexivity.
  pose proof (lstrip_length (pystr.rstrip u)) as H1.
  pose proof (rstrip_length u) as H2.
  rewrite Hidem, length_append in H1. simpl in H1. lia.
Qed.

(** X2.  [draw_verse] validates the stripped email, and a stripped string
    has no final newline for [$] to sit before: the endpoint lets through
    exactly the emails whose stripped form is an address of the three
    parts, nothing after the tld. *)
Theorem endpoint_accepts_exactly_addresses (raw : string) :
  app.is_valid_email (pystr.strip raw) = true
  <-> exists l d t, pattern_parts l d t /\ pystr.strip raw = address l d t.
Proof.
  unfold app.is_valid_email, re.match_anchored.
  rewrite strip_no_final_newline, orb_false_r. split.
  - intros H. apply fullmatch_sound, Lang_pattern in H as (l & d & t & Hp & E).
    eauto.
  - intros (l & d & t & Hp & E). apply fullmatch_complete, Lang_pattern. eauto.
Qed.

(** What [draw_verse_for_user] makes of an email the endpoint let through
    is its lower-case form, and that is again an address. *)
Lemma accepted_email_normalized (raw : string) :
  app.is_valid_email (pystr.strip raw) = true ->
  database.normalize (pystr.strip raw) = pystr.lower (pystr.strip raw)
  /\ app.is_valid_email (database.normalize (pystr.strip raw)) = true.
Proof.
  intros H.
  assert (E : database.normalize (pystr.strip raw) = pystr.lower (pystr.strip raw)).
  { unfold database.normalize. now rewrite <- lower_strip, strip_idem. }
  split; [assumption|].
  now rewrite E, is_valid_email_lower.
Qed.

(** ** Looking up: draws and verses *)

Lemma check_user_draw_spec (s : Store) (email : string) (found : VerseDict) :
  NoDup (map ud_email (user_draws s)) ->
  NoDup (map v_id (verses s)) ->
  database.check_user_draw email s = Some found
  <-> exists ud v,
        In ud (user_draws s) /\ ud_email ud = pystr.lower email
        /\ In v (verses s) /\ v_id v = ud_verse_id ud
        /\ found = database.joined_row (ud, v).
Proof.
  intros Hemails Hids.
  unfold database.check_user_draw.
  set (p := fun j : UserDraw * Verse =>
              String.eqb (ud_email (fst j)) (pystr.lower email)).
  split.
  - destruct (filter p (sql.join_draws_verses s)) as [|[ud v] js] eqn:E;
      [discriminate|].
    intros H. injection H as <-.
    assert (Hj : In (ud, v) (filter p (sql.join_draws_verses s)))
      by (rewrite E; now left).
    apply filter_In in Hj as [Hj He]. unfold p in He. simpl in He.
    apply String.eqb_eq in He. apply join_In in Hj as (Hud & Hv & Eid).
    exists ud, v. auto.
  - intros (ud & v & Hud & He & Hv & Eid & ->).
    assert (Hin : In (ud, v) (filter p (sql.join_draws_verses s))).
    { apply filter_In. split.
      - apply join_In. auto.
      - unfold p. simpl. now apply String.eqb_eq. }
    destruct (filter p (sql.join_draws_verses s)) as [|[ud' v'] js] eqn:E;
      [contradiction|].
    assert (Hj : In (ud', v') (filter p (sql.join_draws_verses s)))
      by (rewrite E; now left).
    apply filter_In in Hj as [Hj He']. unfold p in He'. simpl in He'.
    apply String.eqb_eq in He'. apply join_In in Hj as (Hud' & Hv' & Eid').
    assert (ud' = ud).
    { apply (NoDup_map_inj ud_email (user_draws s)); auto. congruence. }
    subst ud'.
    assert (v' = v).
    { apply (NoDup_map_inj v_id (verses s)); auto. congruence. }
    now subst v'.
Qed.

(** X3.  In a state the application reaches, [check_user_draw] returns a
    verse exactly when [user_draws] has a row of the lower-cased email
    whose verse is in [verses], and then it returns that verse with the
    time and the names of that row. *)
Theorem check_user_draw_exactly (USE_POSTGRES : bool) (s : Store)
  (email : string) (found : VerseDict) :
  reachable USE_POSTGRES s ->
  database.check_user_draw email s = Some found
  <-> exists ud v,
        In ud (user_draws s) /\ ud_email ud = pystr.lower email
        /\ In v (verses s) /\ v_id v = ud_verse_id ud
        /\ found = database.joined_row (ud, v).
Proof.
  intros Hr. apply reachable_store_ok in Hr as Hok.
  apply check_user_draw_spec.
  - apply (ok_emails _ _ Hok).
  - apply (ok_verse_ids _ _ Hok).
Qed.

Lemma reachable_demo_drawn : reachable false demo_drawn.
Proof.
  unfold demo_drawn.
  eapply reach_step; [apply reach_start | apply step_draw].
Qed.

Lemma check_user_draw_exactly_witness :
  database.check_user_draw "FOO@bar.com" demo_drawn
  = Some (mkVerseDict 3 "Je puis tout par celui qui me fortifie."
            "Philippiens 4:13" (Some (mkDrawInfo 2000 None None)))
  <-> exists ud v,
        In ud (user_draws demo_drawn) /\ ud_email ud = pystr.lower "FOO@bar.com"
        /\ In v (verses demo_drawn) /\ v_id v = ud_verse_id ud
        /\ mkVerseDict 3 "Je puis tout par celui qui me fortifie."
             "Philippiens 4:13" (Some (mkDrawInfo 2000 None None))
           = database.joined_row (ud, v).
Proof.
  exact (check_user_draw_exactly false demo_drawn "FOO@bar.com" _
           reachable_demo_drawn).
Defined.




(** ** Deleting a verse *)





(** ** The listings are in order *)

Lemma insert_desc_sorted {A : Type} (key : A -> Z) (x : A) (l : list A) :
  StronglySorted (fun a b => key b <= key a) l ->
  StronglySorted (fun a b => key b <= key a) (sql.insert_desc key x l).
Proof.
  induction l as [|y ys IH]; simpl; intros Hs.
  - constructor; constructor.
  - apply StronglySorted_inv in Hs as [Hys Hy].
    destruct (key y <=? key x) eqn:E.
    + apply Z.leb_le in E. constructor.
      * now constructor.
      * constructor; [assumption|].
        rewrite Forall_forall in *. intros b Hb. specialize (Hy b Hb). lia.
    + apply Z.leb_gt in E. constructor; [now apply IH|].
      rewrite Forall_forall in *. intros b Hb.
      apply (Permutation_in _ (insert_desc_perm key x ys)) in Hb as [<-|Hb];
        [lia | auto].
Qed.

Lemma order_by_desc_sorted {A : Type} (key : A -> Z) (l : list A) :
  StronglySorted (fun a b => key b <= key a) (sql.order_by_desc key l).
Proof.
  induction l as [|x l IH]; simpl; [constructor|].
  now apply insert_desc_sorted.
Qed.

Lemma sorted_strictly {A : Type} (key : A -> Z) (l : list A) :
  NoDup (map key l) ->
  StronglySorted (fun a b => key b <= key a) l ->
  StronglySorted (fun a b => key b < key a) l.
Proof.
  induction l as [|x l IH]; simpl; intros Hnd Hs; [constructor|].
  apply NoDup_cons_iff in Hnd as [Hx Hl].
  apply StronglySorted_inv in Hs as [Hs Hall].
  constructor; [auto|].
  rewrite Forall_forall in *. intros b Hb.
  specialize (Hall b Hb).
  assert (key b <> key x) by (intros E; apply Hx; rewrite <- E; now apply in_map).
  lia.
Qed.

Lemma sorted_map {A B : Type} (f : A -> B) (key : B -> Z) (l : list A) :
  StronglySorted (fun a b => key (f b) <= key (f a)) l ->
  StronglySorted (fun a b => key b <= key a) (map f l).
Proof.
  induction 1 as [|x l _ IH Hall]; simpl; constructor; [assumption|].
  rewrite Forall_forall in *. intros b Hb.
  apply in_map_iff in Hb as (a & <- & Ha). auto.
Qed.

(** X6.  In a state the application reaches, [get_all_verses] returns the
    verses of the table, each once, the ids strictly decreasing: the verse
    added last comes first. *)
Theorem get_all_verses_newest_first (USE_POSTGRES : bool) (s : Store) :
  reachable USE_POSTGRES s ->
  Permutation (database.get_all_verses s) (verses s)
  /\ StronglySorted (fun a b => v_id b < v_id a) (database.get_all_verses s).
Proof.
  intros Hr. apply reachable_store_ok in Hr as Hok.
  unfold database.get_all_verses.
  split; [apply order_by_desc_perm|].
  apply sorted_strictly; [|apply order_by_desc_sorted].
  apply Permutation_NoDup with (l := map v_id (verses s)).
  - apply Permutation_map, Permutation_sym, order_by_desc_perm.
  - apply (ok_verse_ids _ _ Hok).
Qed.

Lemma get_all_verses_newest_first_witness :
  map v_id (database.get_all_verses demo_deleted) = [8; 7; 6; 5; 4; 2; 1]
  /\ StronglySorted (fun a b => v_id b < v_id a)
       (database.get_all_verses demo_deleted).
Proof.
  split; [reflexivity|].
  exact (proj2 (get_all_verses_newest_first false demo_deleted
                  reachable_demo_deleted)).
Defined.

Lemma draw_rows_of_join (vs : list Verse) (l : list UserDraw) :
  map database.draw_row
    (flat_map
       (fun ud => map (pair ud) (filter (fun v => ud_verse_id ud =? v_id v) vs)) l)
  = flat_map
      (fun ud =>
         map (fun v => mkDrawRow (ud_email ud) (ud_verse_id ud) (ud_drawn_at ud)
                         (ud_first_name ud) (ud_last_name ud)
                         (v_text v) (v_reference v))
           (filter (fun v => ud_verse_id ud =? v_id v) vs)) l.
Proof.
  induction l as [|ud l IH]; simpl; [reflexivity|].
  now rewrite map_app, map_map, IH.
Qed.

(** Under the two keys the rows of the join have different emails. *)
Lemma join_emails_differ (vs : list Verse) (l : list UserDraw) :
  NoDup (map v_id vs) -> NoDup (map ud_email l) ->
  NoDup
    (map (fun j : UserDraw * Verse => ud_email (fst j))
       (flat_map
          (fun ud => map (pair ud) (filter (fun v => ud_verse_id ud =? v_id v) vs))
          l)).
Proof.
  intros Hids. induction l as [|ud l IH]; simpl; intros Hemails; [constructor|].
  apply NoDup_cons_iff in Hemails as [Hud Hl].
  rewrite map_app, map_map. simpl.
  destruct (in_dec Z.eq_dec (ud_verse_id ud) (map v_id vs)) as [Hin|Hin].
  - apply in_map_iff in Hin as (v & Ev & Hv).
    rewrite <- Ev, filter_verse_id by assumption. simpl.
    apply NoDup_cons_iff. split; [|now apply IH].
    intros Hdup. apply Hud.
    apply in_map_iff in Hdup as ([ud' v'] & Ee & Hj). simpl in Ee.
    apply in_flat_map in Hj as (ud'' & Hud'' & Hj).
    apply in_map_iff in Hj as (v'' & Ej & _). injection Ej as -> ->.
    rewrite <- Ee. now apply in_map.
  - rewrite filter_verse_id_absent by assumption. simpl. now apply IH.
Qed.

(** X7.  [get_all_draws] returns the rows of the inner join, each as often
    as the join has it: one row for every draw and every verse of the id
    the draw refers to, with the email, the verse id, the time and the
    names of the draw and the text and the reference of the verse, and no
    other row; the rows are in the order of [drawn_at], latest first.  In a
    state the application reaches no two rows have the same email, so that
    a draw whose verse is there has exactly one row. *)
Theorem get_all_draws_rows (USE_POSTGRES : bool) (s : Store) :
  Permutation (database.get_all_draws s)
    (flat_map
       (fun ud =>
          map (fun v => mkDrawRow (ud_email ud) (ud_verse_id ud) (ud_drawn_at ud)
                          (ud_first_name ud) (ud_last_name ud)
                          (v_text v) (v_reference v))
            (filter (fun v => ud_verse_id ud =? v_id v) (verses s)))
       (user_draws s))
  /\ (forall row,
        In row (database.get_all_draws s)
        <-> exists ud v,
              In ud (user_draws s) /\ In v (verses s)
              /\ ud_verse_id ud = v_id v
              /\ row = mkDrawRow (ud_email ud) (ud_verse_id ud) (ud_drawn_at ud)
                         (ud_first_name ud) (ud_last_name ud)
                         (v_text v) (v_reference v))
  /\ StronglySorted (fun a b => r_drawn_at b <= r_drawn_at a)
       (database.get_all_draws s)
  /\ (reachable USE_POSTGRES s ->
      NoDup (map r_email (database.get_all_draws s))).
Proof.
  unfold database.get_all_draws. split; [|split; [|split]].
  - rewrite <- draw_rows_of_join. apply Permutation_map, order_by_desc_perm.
  - intros row. rewrite in_map_iff. split.
    + intros ([ud v] & <- & Hj).
      apply (Permutation_in _ (order_by_desc_perm _ _)) in Hj.
      apply join_In in Hj as (Hud & Hv & Eid).
      exists ud, v. auto.
    + intros (ud & v & Hud & Hv & Eid & ->).
      exists (ud, v). split; [reflexivity|].
      apply (Permutation_in _ (Permutation_sym (order_by_desc_perm _ _))).
      apply join_In. auto.
  - apply sorted_map.
    assert (H : StronglySorted
                  (fun a b : UserDraw * Verse =>
                     ud_drawn_at (fst b) <= ud_drawn_at (fst a))
                  (sql.order_by_desc (fun j => ud_drawn_at (fst j))
                     (sql.join_draws_verses s)))
      by apply (order_by_desc_sorted (fun j : UserDraw * Verse => ud_drawn_at (fst j))).
    eapply StronglySorted_ind with
      (P := StronglySorted
              (fun a b : UserDraw * Verse =>
                 r_drawn_at (database.draw_row b) <= r_drawn_at (database.draw_row a)));
      [constructor | | exact H].
    intros [ud v] l _ IH Hall. constructor; [assumption|].
    rewrite Forall_forall in *. intros [ud' v'] Hb.
    specialize (Hall _ Hb). exact Hall.
  - intros Hr. apply reachable_store_ok in Hr as Hok.
    rewrite map_map.
    apply Permutation_NoDup
      with (l := map (fun j : UserDraw * Verse => ud_email (fst j))
                   (sql.join_draws_verses s)).
    + rewrite (map_ext (fun j => r_email (database.draw_row j))
                 (fun j : UserDraw * Verse => ud_email (fst j)))
        by (intros [ud v]; reflexivity).
      apply Permutation_map, Permutation_sym, order_by_desc_perm.
    + apply join_emails_differ;
        [apply (ok_verse_ids _ _ Hok) | apply (ok_emails _ _ Hok)].
Qed.

Lemma get_all_draws_rows_witness :
  database.get_all_draws demo_drawn
  = [mkDrawRow "foo@bar.com" 3 2000 None None
       "Je puis tout par celui qui me fortifie." "Philippiens 4:13"]
  /\ NoDup (map r_email (database.get_all_draws demo_drawn)).
Proof.
  split; [reflexivity|].
  exact (proj2 (proj2 (proj2 (get_all_draws_rows false demo_drawn)))
           reachable_demo_drawn).
Defined.

(** ** Every outcome of a draw *)

Lemma draw_read_chosen (email : string) (rnd : nat) (s : Store)
  (chosen : VerseDict) :
  database.draw_read email rnd s = Chosen chosen ->
  database.check_user_draw email s = None
  /\ exists v, In v (verses s) /\ chosen = database.verse_row v.
Proof.
  unfold database.draw_read.
  destruct (database.check_user_draw email s); [discriminate|].
  destruct (verses s) as [|v0 rest]; [discriminate|]. simpl.
  intros H. injection H as <-. split; [reflexivity|].
  destruct (choice_verse_row rnd v0 rest) as (v & Hv & E). eauto.
Qed.

(** X8.  A draw tagged [already_drawn = False] has written exactly one
    record: the identity had no row in [user_draws], the verse returned is
    a verse of the table, and the store is the old one with one row more,
    holding the normalized email, the id of that verse, the names and the
    time; [verses] and [admin] are as they were. *)
Theorem new_draw_is_recorded (USE_POSTGRES : bool) (s s' : Store)
  (email : string) (first last : option string) (rnd : nat) (now : Z)
  (drawn : VerseDict) :
  database.draw_verse_for_user USE_POSTGRES email first last rnd now s
    = (Ok (Some (mkDrawResult drawn false)), s') ->
  ~ In (database.normalize email) (map ud_email (user_draws s))
  /\ exists v,
       In v (verses s) /\ drawn = database.verse_row v
       /\ s' = {| verses := verses s; verses_seq := verses_seq s;
                  user_draws :=
                    user_draws s
                    ++ [mkUserDraw (user_draws_seq s + 1)
                          (database.normalize email) (v_id v) first last now];
                  user_draws_seq := user_draws_seq s + 1;
                  admin := admin s; admin_seq := admin_seq s |}.
Proof.
  unfold database.draw_verse_for_user.
  destruct (database.draw_read (database.normalize email) rnd s)
    as [existing| |chosen] eqn:Eread; simpl; try discriminate.
  apply draw_read_chosen in Eread as (_ & v & Hv & ->).
  unfold database.draw_save, sql.insert_user_draw.
  destruct (existsb _ (user_draws s)) eqn:Eu; [discriminate|].
  destruct (USE_POSTGRES && negb (sql.has_verse _ s)); [discriminate|].
  intros H. injection H as <- <-. split.
  - intros Hin. apply existsb_email_In in Hin. congruence.
  - exists v. auto.
Qed.

Lemma new_draw_is_recorded_witness :
  ~ In (database.normalize "Foo@Bar.com") (map ud_email (user_draws demo_start))
  /\ exists v,
       In v (verses demo_start)
       /\ mkVerseDict 3 "Je puis tout par celui qui me fortifie."
            "Philippiens 4:13" None = database.verse_row v
       /\ demo_drawn
          = {| verses := verses demo_start; verses_seq := verses_seq demo_start;
               user_draws :=
                 user_draws demo_start
                 ++ [mkUserDraw (user_draws_seq demo_start + 1)
                       (database.normalize "Foo@Bar.com") (v_id v) None None 2000];
               user_draws_seq := user_draws_seq demo_start + 1;
               admin := admin demo_start; admin_seq := admin_seq demo_start |}.
Proof.
  apply (new_draw_is_recorded false demo_start demo_drawn "Foo@Bar.com"
           None None 10 2000).
  reflexivity.
Defined.

(** X9.  In a state the application reaches, a draw comes back tagged
    [already_drawn = True] exactly when the identity has a row in
    [user_draws] whose verse is in [verses]; the verse returned is that
    one, with the time and the names of that row, and the store is left as
    it was, whatever the names and the random number of this call. *)
Theorem repeated_draw_exactly (USE_POSTGRES : bool) (s s' : Store)
  (email : string) (first last : option string) (rnd : nat) (now : Z)
  (drawn : VerseDict) :
  reachable USE_POSTGRES s ->
  database.draw_verse_for_user USE_POSTGRES email first last rnd now s
    = (Ok (Some (mkDrawResult drawn true)), s')
  <-> s' = s
      /\ exists ud v,
           In ud (user_draws s) /\ ud_email ud = database.normalize email
           /\ In v (verses s) /\ v_id v = ud_verse_id ud
           /\ drawn = database.joined_row (ud, v).
Proof.
  intros Hr. apply reachable_store_ok in Hr as Hok.
  pose proof (check_user_draw_spec s (database.normalize email) drawn
                (ok_emails _ _ Hok) (ok_verse_ids _ _ Hok)) as Hspec.
  rewrite lower_normalize in Hspec.
  unfold database.draw_verse_for_user, database.draw_read. split.
  - destruct (database.check_user_draw (database.normalize email) s)
      as [existing|] eqn:Echeck.
    + simpl. intros H. injection H as -> <-. split; [reflexivity|].
      now apply Hspec.
    + destruct (map database.verse_row (verses s)); simpl; [discriminate|].
      unfold database.draw_save.
      destruct (sql.insert_user_draw _ _ _ _ _ _ _) as [[[]|e] s1]; discriminate.
  - intros (-> & Hfound). apply Hspec in Hfound. now rewrite Hfound.
Qed.

Lemma repeated_draw_exactly_witness :
  database.draw_verse_for_user false " foo@BAR.com" (Some "Jo") None 5 4000
    demo_drawn
  = (Ok (Some (mkDrawResult
                 (mkVerseDict 3 "Je puis tout par celui qui me fortifie."
                    "Philippiens 4:13" (Some (mkDrawInfo 2000 None None)))
                 true)),
     demo_drawn).
Proof.
  apply (repeated_draw_exactly false demo_drawn demo_drawn " foo@BAR.com"
           (Some "Jo") None 5 4000 _ reachable_demo_drawn).
  split; [reflexivity|].
  exists (mkUserDraw 1 "foo@bar.com" 3 None None 2000),
         (mkVerse 3 "Je puis tout par celui qui me fortifie."
            "Philippiens 4:13" 1000).
  repeat split; simpl; auto 10.
Defined.



(** ** What a run of the application keeps *)

Lemma seed_user_draws (now : Z) (l : list (string * string)) :
  forall s,
    user_draws
      (fold_left (fun s tr => snd (sql.insert_verse (fst tr) (snd tr) now s)) l s)
    = user_draws s.
Proof.
  induction l as [|tr l IH]; simpl; intros s; [reflexivity|].
  now rewrite IH.
Qed.

Lemma seed_verses (now : Z) (l : list (string * string)) :
  forall s,
    let s' :=
      fold_left (fun s tr => snd (sql.insert_verse (fst tr) (snd tr) now s)) l s in
    verses_seq s <= verses_seq s'
    /\ forall v, In v (verses s') -> In v (verses s) \/ verses_seq s < v_id v.
Proof.
  induction l as [|tr l IH]; simpl; intros s.
  - split; [lia | auto].
  - destruct (IH (snd (sql.insert_verse (fst tr) (snd tr) now s))) as [Hseq Hin].
    simpl in Hseq, Hin. split; [lia|].
    intros v Hv. apply Hin in Hv as [Hv|Hv]; [|right; lia].
    apply in_app_iff in Hv as [Hv|[<-|[]]]; [now left | right; simpl; lia].
Qed.

Lemma init_db_user_draws (h : string -> string) (now : Z) (s : Store) :
  user_draws (database.init_db h now (Tables s)) = user_draws s.
Proof.
  unfold database.init_db. simpl.
  destruct (sql.count (admin s) =? 0);
    destruct (sql.count (verses _) =? 0);
    rewrite ?seed_user_draws; reflexivity.
Qed.

Lemma init_db_verses (h : string -> string) (now : Z) (s : Store) :
  verses_seq s <= verses_seq (database.init_db h now (Tables s))
  /\ forall v, In v (verses (database.init_db h now (Tables s))) ->
       In v (verses s) \/ verses_seq s < v_id v.
Proof.
  unfold database.init_db. simpl.
  set (s1 := if sql.count (admin s) =? 0
             then sql.insert_admin "admin" (h "admin123") s else s).
  assert (E1 : verses s1 = verses s /\ verses_seq s1 = verses_seq s)
    by (unfold s1; destruct (sql.count (admin s) =? 0); auto).
  destruct E1 as [Ev Eq].
  destruct (sql.count (verses s1) =? 0).
  - pose proof (seed_verses now database.sample_verses s1) as H.
    cbv zeta in H. destruct H as [Hseq Hin].
    rewrite Eq in Hseq. split; [assumption|].
    intros v Hv. apply Hin in Hv. now rewrite Ev, Eq in Hv.
  - rewrite Ev, Eq. split; [lia | auto].
Qed.

Lemma draw_finish_user_draws (pg : bool) (email : string) (read : DrawRead)
  (first last : option string) (now : Z) (s : Store) :
  verses (snd (database.draw_finish pg email read first last now s)) = verses s
  /\ verses_seq (snd (database.draw_finish pg email read first last now s))
     = verses_seq s
  /\ admin (snd (database.draw_finish pg email read first last now s)) = admin s
  /\ exists new,
       user_draws (snd (database.draw_finish pg email read first last now s))
       = (user_draws s ++ new)%list
       /\ (List.length new <= 1)%nat.
Proof.
  destruct read as [existing| |chosen]; simpl;
    try (repeat split; exists []; rewrite app_nil_r; simpl; auto).
  unfold database.draw_save, sql.insert_user_draw, sql.rejected.
  destruct (existsb _ (user_draws s)).
  - destruct pg; simpl; repeat split; exists []; rewrite app_nil_r; simpl; auto.
  - destruct (pg && negb (sql.has_verse (d_id chosen) s)).
    + destruct pg; simpl; repeat split; exists []; rewrite app_nil_r; simpl; auto.
    + simpl. repeat split. eexists. split; [reflexivity | simpl; lia].
Qed.

Lemma delete_verse_frame (pg : bool) (verse_id : Z) (s : Store) :
  user_draws (snd (database.delete_verse pg verse_id s)) = user_draws s
  /\ admin (snd (database.delete_verse pg verse_id s)) = admin s
  /\ verses_seq (snd (database.delete_verse pg verse_id s)) = verses_seq s
  /\ forall v, In v (verses (snd (database.delete_verse pg verse_id s))) ->
       In v (verses s).
Proof.
  unfold database.delete_verse, sql.delete_verse.
  destruct (pg && sql.has_verse verse_id s && sql.referenced verse_id s); simpl;
    repeat split; auto.
  intros v Hv. now apply filter_In in Hv.
Qed.

Lemma step_user_draws (pg : bool) (s s' : Store) :
  step pg s s' -> exists new, user_draws s' = (user_draws s ++ new)%list.
Proof.
  intros H. destruct H.
  - exists []. now rewrite init_db_user_draws, app_nil_r.
  - exists []. simpl. now rewrite app_nil_r.
  - exists []. rewrite app_nil_r. apply delete_verse_frame.
  - destruct (draw_finish_user_draws pg (database.normalize email)
                (database.draw_read (database.normalize email) rnd s)
                first last now s) as (_ & _ & _ & new & E & _).
    now exists new.
  - destruct (draw_finish_user_draws pg (database.normalize email)
                read first last now s) as (_ & _ & _ & new & E & _).
    now exists new.
Qed.

Lemma step_verses (pg : bool) (s s' : Store) :
  step pg s s' ->
  verses_seq s <= verses_seq s'
  /\ forall v, In v (verses s') -> In v (verses s) \/ verses_seq s < v_id v.
Proof.
  intros H. destruct H.
  - apply init_db_verses.
  - simpl. split; [lia|]. intros v Hv.
    apply in_app_iff in Hv as [Hv|[<-|[]]]; [now left | right; simpl; lia].
  - destruct (delete_verse_frame pg verse_id s) as (_ & _ & Eq & Hin).
    rewrite Eq. split; [lia | auto].
  - destruct (draw_finish_user_draws pg (database.normalize email)
                (database.draw_read (database.normalize email) rnd s)
                first last now s) as (Ev & Eq & _).
    unfold database.draw_verse_for_user. rewrite Ev, Eq. split; [lia | auto].
  - destruct (draw_finish_user_draws pg (database.normalize email)
                read first last now s) as (Ev & Eq & _).
    rewrite Ev, Eq. split; [lia | auto].
Qed.

Lemma steps_reachable (pg : bool) (s s' : Store) :
  steps pg s s' -> reachable pg s -> reachable pg s'.
Proof.
  induction 1 as [|s s' s'' _ IH Hstep]; intros Hr; [assumption|].
  eapply reach_step; [now apply IH | exact Hstep].
Qed.

Lemma steps_user_draws (pg : bool) (s s' : Store) :
  steps pg s s' -> exists new, user_draws s' = (user_draws s ++ new)%list.
Proof.
  induction 1 as [s|s s' s'' _ [new1 E1] Hstep].
  - exists []. now rewrite app_nil_r.
  - apply step_user_draws in Hstep as [new2 E2].
    exists (new1 ++ new2)%list. now rewrite E2, E1, app_assoc.
Qed.

Lemma steps_verses (pg : bool) (s s' : Store) :
  steps pg s s' ->
  verses_seq s <= verses_seq s'
  /\ forall v, In v (verses s') -> In v (verses s) \/ verses_seq s < v_id v.
Proof.
  induction 1 as [s|s s' s'' _ [Hseq Hin] Hstep].
  - split; [lia | auto].
  - apply step_verses in Hstep as [Hseq2 Hin2]. split; [lia|].
    intros v Hv. apply Hin2 in Hv as [Hv|Hv]; [auto | right; lia].
Qed.

Lemma steps_demo : steps false demo_start demo_deleted.
Proof.
  unfold demo_deleted, demo_drawn.
  eapply steps_more; [|apply step_delete_verse].
  eapply steps_more; [apply steps_none | apply step_draw].
Qed.

(** X11.  Whatever calls follow, and in whatever order their halves run,
    the draw records that are there stay, unchanged and in place: the later
    [user_draws] is the earlier one with rows added at its end, and
    [get_draw_stats] never counts fewer draws than before. *)
Theorem draws_are_never_lost (USE_POSTGRES : bool) (s s' : Store) :
  steps USE_POSTGRES s s' ->
  (exists new, user_draws s' = (user_draws s ++ new)%list)
  /\ total_draws (database.get_draw_stats s)
     <= total_draws (database.get_draw_stats s').
Proof.
  intros H. apply steps_user_draws in H as [new E].
  split; [eauto|].
  simpl. unfold sql.count. rewrite E, length_app. lia.
Qed.

Lemma draws_are_never_lost_witness :
  (exists new, user_draws demo_deleted = (user_draws demo_start ++ new)%list)
  /\ total_draws (database.get_draw_stats demo_start)
     <= total_draws (database.get_draw_stats demo_deleted).
Proof.
  exact (draws_are_never_lost false demo_start demo_deleted steps_demo).
Defined.

(** X12.  Whatever calls follow, the id sequence of [verses] never goes
    back, and a verse found later under an id that had already been handed
    out is a verse that was there, with the same text and reference:
    verses are never edited and the id of a deleted verse is never given
    to another one. *)
Theorem verse_ids_are_never_reused (USE_POSTGRES : bool) (s s' : Store) :
  steps USE_POSTGRES s s' ->
  verses_seq s <= verses_seq s'
  /\ forall v, In v (verses s') -> v_id v <= verses_seq s -> In v (verses s).
Proof.
  intros H. apply steps_verses in H as [Hseq Hin].
  split; [assumption|].
  intros v Hv Hid. apply Hin in Hv as [Hv|Hv]; [assumption | lia].
Qed.

Lemma verse_ids_are_never_reused_witness :
  verses_seq demo_start <= verses_seq demo_deleted
  /\ forall v, In v (verses demo_deleted) -> v_id v <= verses_seq demo_start ->
       In v (verses demo_start).
Proof.
  exact (verse_ids_are_never_reused false demo_start demo_deleted steps_demo).
Defined.

(** X13.  Once the verse of a draw is deleted, the identity is locked out
    for good.  In a state the application reaches, take a draw record whose
    verse id the sequence had handed out and whose verse is gone.  Whatever
    calls follow, the record stays, its verse stays gone, the lookup for
    the identity finds nothing, and every further draw of the identity
    either returns [None] (no verse is left) or raises the violation of the
    unique constraint: it never returns a verse. *)
Theorem dangling_draw_locks_identity_out (USE_POSTGRES : bool) (s s' : Store)
  (ud : UserDraw) :
  reachable USE_POSTGRES s ->
  In ud (user_draws s) ->
  dangling s ud ->
  ud_verse_id ud <= verses_seq s ->
  steps USE_POSTGRES s s' ->
  In ud (user_draws s')
  /\ dangling s' ud
  /\ forall email first last rnd now,
       database.normalize email = ud_email ud ->
       database.check_user_draw (database.normalize email) s' = None
       /\ (fst (database.draw_verse_for_user USE_POSTGRES email first last rnd now s')
           = Ok None
           \/ fst (database.draw_verse_for_user USE_POSTGRES email first last rnd now s')
              = Raise (IntegrityError unique_user_draws_email)).
Proof.
  intros Hr Hud Hd Hid Hsteps.
  pose proof (steps_reachable _ _ _ Hsteps Hr) as Hr'.
  apply reachable_store_ok in Hr' as Hok'.
  assert (Hud' : In ud (user_draws s')).
  { destruct (steps_user_draws _ _ _ Hsteps) as [new E].
    rewrite E. apply in_app_iff. now left. }
  assert (Hd' : dangling s' ud).
  { intros Hin. apply in_map_iff in Hin as (v & Ev & Hv).
    destruct (steps_verses _ _ _ Hsteps) as [_ Hin].
    apply Hin in Hv as [Hv|Hv]; [|lia].
    apply Hd. rewrite <- Ev. now apply in_map. }
  split; [assumption|]. split; [assumption|].
  intros email first last rnd now He.
  assert (Hnone : database.check_user_draw (database.normalize email) s' = None).
  { apply check_user_draw_dangling with (ud := ud); auto.
    - apply (ok_emails _ _ Hok').
    - now rewrite lower_normalize. }
  split; [assumption|].
  unfold database.draw_verse_for_user, database.draw_read. rewrite Hnone.
  destruct (map database.verse_row (verses s')); simpl; [now left|].
  right. rewrite draw_save_duplicate; [reflexivity|].
  rewrite He. now apply in_map.
Qed.

Lemma dangling_draw_locks_identity_out_witness :
  In (mkUserDraw 1 "foo@bar.com" 3 None None 2000)
    (user_draws (snd (database.add_verse "text" "Ref 1:1" 2500 demo_deleted)))
  /\ dangling (snd (database.add_verse "text" "Ref 1:1" 2500 demo_deleted))
       (mkUserDraw 1 "foo@bar.com" 3 None None 2000).
Proof.
  destruct (dangling_draw_locks_identity_out false demo_deleted
              (snd (database.add_verse "text" "Ref 1:1" 2500 demo_deleted))
              (mkUserDraw 1 "foo@bar.com" 3 None None 2000))
    as (H1 & H2 & _).
  - exact reachable_demo_deleted.
  - now left.
  - unfold dangling. simpl. intuition discriminate.
  - simpl. lia.
  - eapply steps_more; [apply steps_none | apply step_add_verse].
  - split; assumption.
Defined.

(** X14.  On PostgreSQL no draw ever loses its verse.  In every state the
    application reaches there, each draw record refers to a verse of the
    table, the lookup for its email finds it, and [get_all_draws] has as
    many rows as [get_draw_stats] counts draws. *)
Theorem postgres_keeps_every_draw_listed (s : Store) :
  reachable true s ->
  (forall ud, In ud (user_draws s) ->
     ~ dangling s ud
     /\ exists found, database.check_user_draw (ud_email ud) s = Some found)
  /\ Z.of_nat (List.length (database.get_all_draws s))
     = total_draws (database.get_draw_stats s).
Proof.
  intros Hr. apply reachable_store_ok in Hr as Hok.
  pose proof (ok_foreign_key _ _ Hok eq_refl) as Hfk.
  split.
  - intros ud Hud. split; [intros Hd; apply Hd; auto|].
    specialize (Hfk ud Hud). apply in_map_iff in Hfk as (v & Ev & Hv).
    exists (database.joined_row (ud, v)).
    apply check_user_draw_spec.
    + apply (ok_emails _ _ Hok).
    + apply (ok_verse_ids _ _ Hok).
    + exists ud, v. repeat split; auto.
      rewrite <- (ok_normalized _ _ Hok ud Hud). symmetry. apply lower_normalize.
  - rewrite get_all_draws_length. simpl. unfold sql.count.
    destruct (join_length (verses s) (user_draws s) (ok_verse_ids _ _ Hok))
      as [Hle Hlt].
    fold (sql.join_draws_verses s) in Hle, Hlt.
    destruct (Nat.eq_dec (List.length (sql.join_draws_verses s))
                (List.length (user_draws s))) as [E|Hne]; [now rewrite E|].
    exfalso.
    assert (Hlt' : (List.length (sql.join_draws_verses s)
                    < List.length (user_draws s))%nat) by lia.
    apply Hlt in Hlt' as (ud & Hud & Hd). apply Hd. auto.
Qed.

Lemma postgres_keeps_every_draw_listed_witness :
  Z.of_nat (List.length
    (database.get_all_draws
       (snd (database.draw_verse_for_user true "Foo@Bar.com" None None 10 2000
               demo_start))))
  = 1.
Proof.
  refine (proj2 (postgres_keeps_every_draw_listed
                   (snd (database.draw_verse_for_user true "Foo@Bar.com" None None
                           10 2000 demo_start)) _)).
  eapply reach_step; [apply reach_start | apply step_draw].
Defined.

(** ** Starting again *)

Lemma init_db_settled (h : string -> string) (now : Z) (s : Store) :
  admin s <> [] -> verses s <> [] ->
  database.init_db h now (Tables s) = s.
Proof.
  intros Ha Hv. unfold database.init_db. simpl.
  now rewrite (count_nonzero _ Ha), (count_nonzero _ Hv).
Qed.

Lemma init_db_admin (h : string -> string) (now : Z) (s : Store) :
  admin s <> [] -> admin (database.init_db h now (Tables s)) = admin s.
Proof.
  intros Ha. unfold database.init_db, sql.create_tables_if_not_exist.
  rewrite (count_nonzero _ Ha).
  destruct (sql.count (verses s) =? 0); [apply seed_admin | reflexivity].
Qed.

(** X15.  A restart on tables that exist.  [init_db] never touches
    [user_draws], and never a table that has a row: a non-empty [verses]
    and a non-empty [admin] stay as they are.  When every verse has been
    deleted it writes the eight sample verses again, under the next eight
    ids of the sequence and not under 1 to 8: a draw of a verse id that the
    sequence had handed out before stays without verse. *)
Theorem init_db_on_existing_tables (h : string -> string) (now : Z) (s : Store) :
  user_draws (database.init_db h now (Tables s)) = user_draws s
  /\ (verses s <> [] -> verses (database.init_db h now (Tables s)) = verses s)
  /\ (admin s <> [] -> admin (database.init_db h now (Tables s)) = admin s)
  /\ (verses s = [] ->
      verses (database.init_db h now (Tables s))
      = map (fun iv => mkVerse (verses_seq s + fst iv) (fst (snd iv))
                         (snd (snd iv)) now)
          (combine [1; 2; 3; 4; 5; 6; 7; 8] database.sample_verses)
      /\ verses_seq (database.init_db h now (Tables s)) = verses_seq s + 8
      /\ forall ud,
           ud_verse_id ud <= verses_seq s ->
           dangling (database.init_db h now (Tables s)) ud).
Proof.
  split; [apply init_db_user_draws|]. split; [|split].
  - intros Hv. unfold database.init_db, sql.create_tables_if_not_exist.
    assert (E : verses (if sql.count (admin s) =? 0
                        then sql.insert_admin "admin" (h "admin123") s else s)
                = verses s)
      by (destruct (sql.count (admin s) =? 0); reflexivity).
    rewrite E, (count_nonzero _ Hv).
    destruct (sql.count (admin s) =? 0); reflexivity.
  - apply init_db_admin.
  - intros Hv. unfold database.init_db, sql.create_tables_if_not_exist.
    set (s1 := if sql.count (admin s) =? 0
               then sql.insert_admin "admin" (h "admin123") s else s).
    assert (E : verses s1 = [] /\ verses_seq s1 = verses_seq s)
      by (unfold s1; destruct (sql.count (admin s) =? 0); simpl; auto).
    destruct E as [Ev Eq].
    split; [|split].
    + rewrite Ev. simpl. rewrite Ev, Eq. simpl. repeat (f_equal; try lia).
    + rewrite Ev. simpl. rewrite Eq. lia.
    + intros ud Hid Hin. apply in_map_iff in Hin as (v & Ev' & Hv').
      destruct (init_db_verses h now s) as [_ Hnew].
      unfold database.init_db, sql.create_tables_if_not_exist in Hnew.
      fold s1 in Hnew. apply Hnew in Hv' as [Hv'|Hv']; [|lia].
      rewrite Hv in Hv'. contradiction.
Qed.

Lemma init_db_on_existing_tables_witness :
  map v_id (verses (database.init_db demo_hash 5000 (Tables demo_no_verses)))
  = [9; 10; 11; 12; 13; 14; 15; 16]
  /\ dangling (database.init_db demo_hash 5000 (Tables demo_no_verses))
       (mkUserDraw 1 "foo@bar.com" 3 None None 2000)
  /\ verses (database.init_db demo_hash 5000 (Tables demo_deleted))
     = verses demo_deleted.
Proof.
  destruct (init_db_on_existing_tables demo_hash 5000 demo_no_verses)
    as (_ & _ & _ & Hseed).
  destruct (init_db_on_existing_tables demo_hash 5000 demo_deleted)
    as (_ & Hkeep & _ & _).
  destruct (Hseed eq_refl) as (Hrows & _ & Hgone).
  split; [rewrite Hrows; reflexivity|]. split.
  - apply Hgone. simpl. lia.
  - apply Hkeep. discriminate.
Defined.

(** ** The administrator *)

(** In every state the application reaches [admin] has the one row that
    [init_db] wrote at the first start. *)
Lemma reachable_admin (pg : bool) (s : Store) :
  reachable pg s -> exists hash, admin s = [mkAdmin 1 "admin" hash].
Proof.
  induction 1 as [h now|s s' _ [hash IH] Hstep].
  - exists (h "admin123"). reflexivity.
  - exists hash. destruct Hstep.
    + rewrite init_db_admin; [assumption | now rewrite IH].
    + assumption.
    + destruct (delete_verse_frame pg verse_id s) as (_ & Ea & _). now rewrite Ea.
    + destruct (draw_finish_user_draws pg (database.normalize email)
                  (database.draw_read (database.normalize email) rnd s)
                  first last now s) as (_ & _ & Ea & _).
      unfold database.draw_verse_for_user. now rewrite Ea.
    + destruct (draw_finish_user_draws pg (database.normalize email)
                  read first last now s) as (_ & _ & Ea & _).
      now rewrite Ea.
Qed.

Lemma verify_admin_one_row (check : string -> string -> bool)
  (username password hash : string) (s : Store) :
  admin s = [mkAdmin 1 "admin" hash] ->
  database.verify_admin check username password s
  = if String.eqb username "admin" && check hash password then Some 1 else None.
Proof.
  intros E. unfold database.verify_admin. rewrite E.
  cbn [filter a_username a_password_hash a_id].
  rewrite (String.eqb_sym "admin" username).
  destruct (String.eqb username "admin"); reflexivity.
Qed.

(** X16.  In every state the application reaches there is one
    administrator, the row [admin] of id 1 written at the first start, and
    [verify_admin] returns that id exactly for the username [admin] with a
    password that [check_password_hash] accepts against the stored hash;
    for any other username it returns [None] whatever the password. *)
Theorem verify_admin_exactly (USE_POSTGRES : bool) (s : Store) :
  reachable USE_POSTGRES s ->
  exists hash,
    admin s = [mkAdmin 1 "admin" hash]
    /\ forall check username password,
         database.verify_admin check username password s
         = if String.eqb username "admin" && check hash password
           then Some 1 else None.
Proof.
  intros Hr. destruct (reachable_admin _ _ Hr) as [hash E].
  exists hash. split; [assumption|].
  intros check username password. now apply verify_admin_one_row.
Qed.

Lemma verify_admin_exactly_witness :
  exists hash,
    admin demo_deleted = [mkAdmin 1 "admin" hash]
    /\ forall check username password,
         database.verify_admin check username password demo_deleted
         = if String.eqb username "admin" && check hash password
           then Some 1 else None.
Proof.
  exact (verify_admin_exactly false demo_deleted reachable_demo_deleted).
Defined.

(** X17.  The login route in a state the application reaches.  Without a
    username or a password in the body it answers 400.  For the username
    [admin] and a password that [check_password_hash] accepts it answers
    200 and the session holds the administrator's id 1 and the logged-in
    flag.  For anything else it answers 401 and the session is the one that
    came in: a failed attempt does not log out a session that was logged
    in.  The store is never written. *)
Theorem admin_login_outcome (USE_POSTGRES : bool) (s : Store) :
  reachable USE_POSTGRES s ->
  exists hash,
    admin s = [mkAdmin 1 "admin" hash]
    /\ forall check data session,
         app.admin_login check data session s
         = match data with
           | Some (mkLoginRequest (Some username) (Some password)) =>
               if String.eqb username "admin" && check hash password
               then (mkResponse 200 (Message "Connexion réussie"),
                     mkSession (Some 1) (Some true))
               else (mkResponse 401 (Failure "Identifiants incorrects"), session)
           | _ =>
               (mkResponse 400
                  (Failure "Nom d'utilisateur et mot de passe requis"),
                session)
           end.
Proof.
  intros Hr. destruct (reachable_admin _ _ Hr) as [hash E].
  exists hash. split; [assumption|].
  intros check data session. unfold app.admin_login.
  destruct data as [[[username|] [password|]]|]; try reflexivity.
  rewrite (verify_admin_one_row check username password hash s E).
  destruct (String.eqb username "admin" && check hash password); reflexivity.
Qed.

Lemma admin_login_outcome_witness :
  app.admin_login demo_check
    (Some (mkLoginRequest (Some "admin") (Some "admin123"))) app.cleared demo_deleted
  = (mkResponse 200 (Message "Connexion réussie"), mkSession (Some 1) (Some true))
  /\ app.admin_login demo_check
       (Some (mkLoginRequest (Some "admin") (Some "wrong")))
       (mkSession (Some 1) (Some true)) demo_deleted
     = (mkResponse 401 (Failure "Identifiants incorrects"),
        mkSession (Some 1) (Some true)).
Proof.
  destruct (admin_login_outcome false demo_deleted reachable_demo_deleted)
    as (hash & E & H).
  injection E as <-.
  split.
  - exact (H demo_check (Some (mkLoginRequest (Some "admin") (Some "admin123")))
             app.cleared).
  - exact (H demo_check (Some (mkLoginRequest (Some "admin") (Some "wrong")))
             (mkSession (Some 1) (Some true))).
Defined.

(** ** The draw endpoint, case by case *)

Lemma draw_verse_for_user_outcomes (pg : bool) (email : string)
  (first last : option string) (rnd : nat) (now : Z) (s : Store) :
  database.draw_verse_for_user pg email first last rnd now s = (Ok None, s)
  \/ (exists found,
        database.draw_verse_for_user pg email first last rnd now s
        = (Ok (Some (mkDrawResult found true)), s))
  \/ (exists v,
        In v (verses s)
        /\ database.draw_verse_for_user pg email first last rnd now s
           = (Ok (Some (mkDrawResult (database.verse_row v) false)),
              {| verses := verses s; verses_seq := verses_seq s;
                 user_draws :=
                   user_draws s
                   ++ [mkUserDraw (user_draws_seq s + 1)
                         (database.normalize email) (v_id v) first last now];
                 user_draws_seq := user_draws_seq s + 1;
                 admin := admin s; admin_seq := admin_seq s |}))
  \/ (exists e,
        database.draw_verse_for_user pg email first last rnd now s
        = (Raise e, sql.rejected pg s)).
Proof.
  unfold database.draw_verse_for_user.
  destruct (database.draw_read (database.normalize email) rnd s)
    as [existing| |chosen] eqn:Eread; simpl.
  - right. left. eauto.
  - now left.
  - apply draw_read_chosen in Eread as (_ & v & Hv & ->).
    unfold database.draw_save, sql.insert_user_draw.
    destruct (existsb _ (user_draws s)); [right; right; right; eauto|].
    destruct (pg && negb (sql.has_verse _ s)); [right; right; right; eauto|].
    right. right. left. exists v. auto.
Qed.

Lemma rejected_tables (pg : bool) (s : Store) :
  verses (sql.rejected pg s) = verses s
  /\ user_draws (sql.rejected pg s) = user_draws s
  /\ admin (sql.rejected pg s) = admin s.
Proof.
  unfold sql.rejected. destruct pg; auto.
Qed.

(** X18.  Every answer of [POST /api/draw-verse].  The route never touches
    [verses] or [admin].  It answers 400 or 404 and leaves the store as it
    was; or 500 with no row added to [user_draws]; or 200 with a verse
    tagged [already_drawn = True] and the store as it was; or 200 with a
    verse of the table tagged [already_drawn = False] and exactly one row
    added to [user_draws], which holds the id of that verse. *)
Theorem draw_endpoint_outcome (USE_POSTGRES : bool) (data : option DrawRequest)
  (rnd : nat) (now : Z) (s : Store) :
  let response := fst (app.draw_verse USE_POSTGRES data rnd now s) in
  let s' := snd (app.draw_verse USE_POSTGRES data rnd now s) in
  verses s' = verses s
  /\ admin s' = admin s
  /\ ((exists message, response = mkResponse 400 (Failure message)) /\ s' = s
      \/ (exists message, response = mkResponse 404 (Failure message)) /\ s' = s
      \/ (exists e, response = mkResponse 500 (Unhandled e))
         /\ user_draws s' = user_draws s
      \/ (exists found, response = mkResponse 200 (Drawn found true)) /\ s' = s
      \/ (exists v ud,
            In v (verses s)
            /\ response = mkResponse 200 (Drawn (database.verse_row v) false)
            /\ user_draws s' = (user_draws s ++ [ud])%list
            /\ ud_verse_id ud = v_id v)).
Proof.
  unfold app.draw_verse.
  destruct data as [[[raw|] fn ln]|]; simpl;
    try (split; [reflexivity|]; split; [reflexivity|]; left; split; eauto).
  destruct (app.is_valid_email (pystr.strip raw)); simpl;
    [|split; [reflexivity|]; split; [reflexivity|]; left; split; eauto].
  set (f := pystr.or_none (pystr.strip (app.get_or_empty fn))).
  set (l := pystr.or_none (pystr.strip (app.get_or_empty ln))).
  destruct (draw_verse_for_user_outcomes USE_POSTGRES (pystr.strip raw) f l
              rnd now s) as [E|[(found & E)|[(v & Hv & E)|(e & E)]]];
    rewrite E; simpl.
  - split; [reflexivity|]. split; [reflexivity|]. right. left. split; eauto.
  - split; [reflexivity|]. split; [reflexivity|].
    right. right. right. left. split; eauto.
  - split; [reflexivity|]. split; [reflexivity|].
    right. right. right. right. eexists v, _. repeat split; auto.
  - destruct (rejected_tables USE_POSTGRES s) as (Ev & Ed & Ea).
    split; [assumption|]. split; [assumption|].
    right. right. left. split; [|assumption].
    exists e. reflexivity.
Qed.

(** ** The administrator's routes *)

Lemma or_none_empty (x : string) : pystr.or_none x = None <-> x = EmptyString.
Proof.
  destruct x; simpl; split; intros H; try reflexivity; discriminate.
Qed.

(** X19.  [POST /api/admin/verses] in a logged-in session, in a state the
    application reaches.  A text or a reference that is empty once stripped
    is answered 400 and nothing is written.  Otherwise the answer is 200
    with the next id of the sequence, and [GET /api/admin/verses] then
    lists the new verse first, with the stripped text and reference, before
    the verses listed earlier, and counts one verse more. *)
Theorem add_verse_endpoint_outcome (USE_POSTGRES : bool) (s : Store)
  (text reference : string) (now : Z) :
  reachable USE_POSTGRES s ->
  (pystr.strip text = EmptyString \/ pystr.strip reference = EmptyString ->
   app.add_verse true (Some (mkVerseRequest (Some text) (Some reference))) now s
   = (mkResponse 400
        (Failure "Le texte et la référence ne peuvent pas être vides"), s))
  /\ (pystr.strip text <> EmptyString -> pystr.strip reference <> EmptyString ->
      exists s',
        app.add_verse true (Some (mkVerseRequest (Some text) (Some reference)))
          now s
        = (mkResponse 200
             (VerseAdded (verses_seq s + 1) "Verset ajouté avec succès"), s')
        /\ app.get_verses true s'
           = mkResponse 200
               (VerseList
                  (mkVerse (verses_seq s + 1) (pystr.strip text)
                     (pystr.strip reference) now
                   :: database.get_all_verses s)
                  (mkStats (total_draws (database.get_draw_stats s))
                     (total_verses (database.get_draw_stats s) + 1)))).
Proof.
  intros Hr. apply reachable_store_ok in Hr as Hok.
  unfold app.add_verse. simpl. split.
  - intros [H|H].
    + apply or_none_empty in H. now rewrite H.
    + apply or_none_empty in H. rewrite H.
      destruct (pystr.or_none (pystr.strip text)); reflexivity.
  - intros Ht Hrf.
    destruct (pystr.or_none (pystr.strip text)) eqn:Et;
      [|apply or_none_empty in Et; contradiction].
    destruct (pystr.or_none (pystr.strip reference)) eqn:Er;
      [|apply or_none_empty in Er; contradiction].
    eexists. split; [reflexivity|].
    unfold app.get_verses, database.get_all_verses. simpl.
    rewrite order_by_desc_snoc_max.
    + unfold database.get_draw_stats. cbn [verses user_draws].
      unfold sql.count. rewrite length_app. cbn [List.length].
      repeat f_equal. lia.
    + intros v Hv. apply (ok_verse_seq _ _ Hok) in Hv. simpl. lia.
Qed.

Lemma add_verse_endpoint_outcome_witness :
  app.add_verse true (Some (mkVerseRequest (Some "  ") (Some "Ref 1:1"))) 2500
    demo_drawn
  = (mkResponse 400
       (Failure "Le texte et la référence ne peuvent pas être vides"),
     demo_drawn)
  /\ exists s',
       app.add_verse true
         (Some (mkVerseRequest (Some " text ") (Some "Ref 1:1 "))) 2500 demo_drawn
       = (mkResponse 200 (VerseAdded (verses_seq demo_drawn + 1)
                            "Verset ajouté avec succès"), s')
       /\ app.get_verses true s'
          = mkResponse 200
              (VerseList
                 (mkVerse (verses_seq demo_drawn + 1) (pystr.strip " text ")
                    (pystr.strip "Ref 1:1 ") 2500
                  :: database.get_all_verses demo_drawn)
                 (mkStats (total_draws (database.get_draw_stats demo_drawn))
                    (total_verses (database.get_draw_stats demo_drawn) + 1))).
Proof.
  split.
  - apply (proj1 (add_verse_endpoint_outcome false demo_drawn "  " "Ref 1:1" 2500
                    reachable_demo_drawn)).
    left. reflexivity.
  - apply (proj2 (add_verse_endpoint_outcome false demo_drawn " text " "Ref 1:1 "
                    2500 reachable_demo_drawn)); discriminate.
Defined.

(** ** The server *)

Lemma init_db_verses_kept (h : string -> string) (now : Z) (s : Store) :
  verses s <> [] -> verses (database.init_db h now (Tables s)) = verses s.
Proof.
  intros Hv. unfold database.init_db, sql.create_tables_if_not_exist.
  assert (E : verses (if sql.count (admin s) =? 0
                      then sql.insert_admin "admin" (h "admin123") s else s)
              = verses s)
    by (destruct (sql.count (admin s) =? 0); reflexivity).
  rewrite E, (count_nonzero _ Hv).
  destruct (sql.count (admin s) =? 0); reflexivity.
Qed.

Lemma draw_verse_frame (pg : bool) (data : option DrawRequest) (rnd : nat)
  (now : Z) (s : Store) :
  verses (snd (app.draw_verse pg data rnd now s)) = verses s
  /\ admin (snd (app.draw_verse pg data rnd now s)) = admin s.
Proof.
  unfold app.draw_verse.
  destruct data as [[[raw|] fn ln]|]; simpl; auto.
  destruct (app.is_valid_email (pystr.strip raw)); simpl; auto.
  set (f := pystr.or_none (pystr.strip (app.get_or_empty fn))).
  set (l := pystr.or_none (pystr.strip (app.get_or_empty ln))).
  destruct (draw_verse_for_user_outcomes pg (pystr.strip raw) f l rnd now s)
    as [E|[(found & E)|[(v & Hv & E)|(e & E)]]]; rewrite E; simpl; auto.
  destruct (rejected_tables pg s) as (Ev & _ & Ea). auto.
Qed.

(** One request of a client that is not logged in and that is not a login
    that succeeds: the client is still not logged in, [verses] and [admin]
    are as they were, and an administrator's route answered 401. *)
Lemma route_locked (pg : bool) (check : string -> string -> bool)
  (hash : string) (client : nat) (request : Request) (session : Session)
  (s : Store) :
  admin s = [mkAdmin 1 "admin" hash] ->
  not_a_good_login check hash (FromClient client request) ->
  app.logged_in session = false ->
  app.logged_in (snd (fst (server.route pg check request session s))) = false
  /\ verses (snd (server.route pg check request session s)) = verses s
  /\ admin (snd (server.route pg check request session s)) = admin s
  /\ refused_if_admin (FromClient client request)
       (fst (fst (server.route pg check request session s))).
Proof.
  intros Hadmin Hbad Hout.
  destruct request as [data rnd now|data| | | | |data now|verse_id]; simpl.
  - destruct (app.draw_verse pg data rnd now s) as [response s'] eqn:E. simpl.
    pose proof (draw_verse_frame pg data rnd now s) as [Ev Ea].
    rewrite E in Ev, Ea. auto.
  - unfold app.admin_login.
    destruct data as [[[username|] [password|]]|]; simpl; auto.
    rewrite (verify_admin_one_row check username password hash s Hadmin).
    simpl in Hbad. rewrite Hbad. simpl. auto.
  - auto.
  - auto.
  - rewrite Hout. auto.
  - rewrite Hout. auto.
  - rewrite Hout. simpl. auto.
  - rewrite Hout. simpl. auto.
Qed.

Lemma serve_locked (pg : bool) (check : string -> string -> bool)
  (hash : string) (events : list Event) :
  Forall (not_a_good_login check hash) events ->
  forall srv,
    nobody_logged_in srv -> verses (store srv) <> [] ->
    admin (store srv) = [mkAdmin 1 "admin" hash] ->
    nobody_logged_in (snd (server.serve pg check events srv))
    /\ verses (store (snd (server.serve pg check events srv))) = verses (store srv)
    /\ Forall2 refused_if_admin events (fst (server.serve pg check events srv)).
Proof.
  induction 1 as [|event events Hbad _ IH]; simpl; intros srv Hout Hv Hadmin.
  - repeat split; auto.
  - destruct (server.handle pg check event srv) as [answer srv1] eqn:Eh.
    assert (H1 : nobody_logged_in srv1
                 /\ verses (store srv1) = verses (store srv)
                 /\ admin (store srv1) = admin (store srv)
                 /\ refused_if_admin event answer).
    { destruct event as [client request|h now]; simpl in Eh.
      - pose proof (route_locked pg check hash client request (cookies srv client)
                      (store srv) Hadmin Hbad (Hout client))
          as (Hl & Hvs & Has & Hr).
        destruct (server.route pg check request (cookies srv client) (store srv))
          as [[answer' session'] s'].
        injection Eh as <- <-. cbn [fst snd] in Hl, Hvs, Has, Hr.
        split; [|repeat split; assumption].
        intros c. cbn [cookies]. unfold server.set_cookie.
        destruct (Nat.eqb c client); [exact Hl | apply Hout].
      - injection Eh as <- <-. simpl. split; [assumption|].
        split; [now apply init_db_verses_kept|].
        split; [|exact I].
        apply init_db_admin. rewrite Hadmin. discriminate. }
    destruct H1 as (Hout1 & Hv1 & Ha1 & Hr1).
    assert (Hne : verses (store srv1) <> []) by now rewrite Hv1.
    assert (Hadmin1 : admin (store srv1) = [mkAdmin 1 "admin" hash])
      by now rewrite Ha1.
    destruct (IH srv1 Hout1 Hne Hadmin1) as (Hout2 & Hv2 & Hr2).
    destruct (server.serve pg check events srv1) as [answers srv2]. simpl in *.
    split; [assumption|]. split; [congruence|]. now constructor.
Qed.

(** X20.  Without the password nothing of the administrator's is done.
    From the first start, whatever the clients send and in whatever order,
    with restarts in between: as long as no login request carries the
    username [admin] with a password that [check_password_hash] accepts
    against the hash stored at the first start, no client is ever logged
    in, every request of a route of the administrator is answered 401, and
    the verses are the sample verses that the first start wrote. *)
Theorem no_password_no_administration (USE_POSTGRES : bool)
  (check : string -> string -> bool) (h : string -> string) (now : Z)
  (events : list Event) :
  Forall (not_a_good_login check (h "admin123")) events ->
  nobody_logged_in
    (snd (server.serve USE_POSTGRES check events (server.start h now)))
  /\ verses
       (store (snd (server.serve USE_POSTGRES check events (server.start h now))))
     = verses (store (server.start h now))
  /\ Forall2 refused_if_admin events
       (fst (server.serve USE_POSTGRES check events (server.start h now))).
Proof.
  intros Hbad.
  apply (serve_locked USE_POSTGRES check (h "admin123")); try assumption.
  - intros client. reflexivity.
  - discriminate.
  - reflexivity.
Qed.

Lemma no_password_no_administration_witness :
  fst (server.serve false demo_check
         [FromClient 0 (PostAdminLogin
            (Some (mkLoginRequest (Some "admin") (Some "letmein"))));
          FromClient 0 (PostAdminLogin
            (Some (mkLoginRequest (Some "root") (Some "admin123"))));
          FromClient 0 (DeleteAdminVerse 3);
          Restart demo_hash 1500;
          FromClient 1 (PostAdminVerses
            (Some (mkVerseRequest (Some "text") (Some "Ref 1:1"))) 2000);
          FromClient 1 GetAdminCheck]
         (server.start demo_hash 1000))
  = [Json (mkResponse 401 (Failure "Identifiants incorrects"));
     Json (mkResponse 401 (Failure "Identifiants incorrects"));
     Json app.unauthorized;
     Restarted;
     Json app.unauthorized;
     SessionJson (LoggedIn false)]
  /\ verses
       (store (snd (server.serve false demo_check
         [FromClient 0 (PostAdminLogin
            (Some (mkLoginRequest (Some "admin") (Some "letmein"))));
          FromClient 0 (PostAdminLogin
            (Some (mkLoginRequest (Some "root") (Some "admin123"))));
          FromClient 0 (DeleteAdminVerse 3);
          Restart demo_hash 1500;
          FromClient 1 (PostAdminVerses
            (Some (mkVerseRequest (Some "text") (Some "Ref 1:1"))) 2000);
          FromClient 1 GetAdminCheck]
         (server.start demo_hash 1000))))
     = verses (store (server.start demo_hash 1000)).
Proof.
  split; [reflexivity|].
  apply (no_password_no_administration false demo_check demo_hash 1000).
  repeat constructor.
Defined.

(** ** What the endpoints let into [user_draws] *)

Lemma clean_name_or_none (x : string) :
  clean_name (pystr.or_none (pystr.strip x)).
Proof.
  destruct (pystr.or_none (pystr.strip x)) as [n|] eqn:E; simpl; [|exact I].
  destruct (pystr.strip x) as [|c r] eqn:Es; simpl in E; [discriminate|].
  injection E as <-. split; [discriminate|].
  rewrite <- Es. apply strip_idem.
Qed.

Lemma accepted_email_clean (raw : string) :
  app.is_valid_email (pystr.strip raw) = true ->
  (exists l d t,
     pattern_parts l d t /\ database.normalize (pystr.strip raw) = address l d t)
  /\ pystr.lower (database.normalize (pystr.strip raw))
     = database.normalize (pystr.strip raw).
Proof.
  intros H. split; [|apply lower_normalize].
  destruct (accepted_email_normalized raw H) as [_ Hvalid].
  assert (Hs : pystr.strip (database.normalize (pystr.strip raw))
               = database.normalize (pystr.strip raw))
    by (unfold database.normalize; apply strip_idem).
  rewrite <- Hs in Hvalid.
  unfold app.is_valid_email, re.match_anchored in Hvalid.
  rewrite strip_no_final_newline, orb_false_r, Hs in Hvalid.
  apply fullmatch_sound, Lang_pattern in Hvalid as (l & d & t & Hp & E).
  eauto.
Qed.

Lemma route_clean (pg : bool) (check : string -> string -> bool)
  (request : Request) (session : Session) (s : Store) :
  Forall clean_draw (user_draws s) ->
  Forall clean_draw (user_draws (snd (server.route pg check request session s))).
Proof.
  intros Hclean.
  destruct request as [data rnd now|data| | | | |data now|verse_id]; simpl;
    try assumption.
  - unfold app.draw_verse.
    destruct data as [[[raw|] fn ln]|]; simpl; try assumption.
    destruct (app.is_valid_email (pystr.strip raw)) eqn:Hvalid; simpl;
      [|assumption].
    set (f := pystr.or_none (pystr.strip (app.get_or_empty fn))).
    set (l := pystr.or_none (pystr.strip (app.get_or_empty ln))).
    destruct (draw_verse_for_user_outcomes pg (pystr.strip raw) f l rnd now s)
      as [E|[(found & E)|[(v & Hv & E)|(e & E)]]]; rewrite E; simpl;
      try assumption.
    + apply Forall_app. split; [assumption|].
      constructor; [|constructor].
      destruct (accepted_email_clean raw Hvalid) as [Hparts Hlower].
      repeat split; simpl; auto; apply clean_name_or_none.
    + destruct (rejected_tables pg s) as (_ & Ed & _). now rewrite Ed.
  - destruct (app.admin_login check data session s). assumption.
  - unfold app.add_verse.
    destruct (negb (app.logged_in session)); simpl; [assumption|].
    destruct data as [[[text|] [reference|]]|]; simpl; try assumption.
    destruct (pystr.or_none (pystr.strip text));
      destruct (pystr.or_none (pystr.strip reference)); simpl; assumption.
  - unfold app.delete_verse.
    destruct (negb (app.logged_in session)); simpl; [assumption|].
    destruct (delete_verse_frame pg verse_id s) as (Ed & _).
    destruct (database.delete_verse pg verse_id s) as [[[]|e] s']; simpl in *;
      now rewrite Ed.
Qed.

Lemma serve_clean (pg : bool) (check : string -> string -> bool)
  (events : list Event) :
  forall srv,
    Forall clean_draw (user_draws (store srv)) ->
    Forall clean_draw
      (user_draws (store (snd (server.serve pg check events srv)))).
Proof.
  induction events as [|event events IH]; simpl; intros srv Hclean;
    [assumption|].
  destruct (server.handle pg check event srv) as [answer srv1] eqn:Eh.
  assert (H1 : Forall clean_draw (user_draws (store srv1))).
  { destruct event as [client request|h now]; simpl in Eh.
    - pose proof (route_clean pg check request (cookies srv client) (store srv)
                    Hclean) as Hr.
      destruct (server.route pg check request (cookies srv client) (store srv))
        as [[answer' session'] s'].
      injection Eh as <- <-. exact Hr.
    - injection Eh as <- <-. simpl. now rewrite init_db_user_draws. }
  specialize (IH srv1 H1).
  destruct (server.serve pg check events srv1) as [answers srv2]. exact IH.
Qed.

(** X21.  What the endpoints let into [user_draws].  From the first start,
    whatever the clients send, whoever is logged in, with restarts in
    between, every draw record of the store has for its email a lower-case
    address of the three parts of the validation pattern, nothing before
    and nothing after, and for each name either nothing or a non-empty
    string without surrounding whitespace. *)
Theorem served_draws_are_clean (USE_POSTGRES : bool)
  (check : string -> string -> bool) (h : string -> string) (now : Z)
  (events : list Event) :
  Forall clean_draw
    (user_draws
       (store (snd (server.serve USE_POSTGRES check events (server.start h now))))).
Proof.
  apply serve_clean. constructor.
Qed.

(** ** A session, from login to logout *)

(** X22.  One client, in a state the application reaches, with a password
    that [check_password_hash] accepts against the stored hash: the login
    is answered 200; the list of verses is then served, with the stats;
    the logout is answered with success; after it the same request for the
    list is answered 401 and the check route says the client is not logged
    in.  None of this writes to the store. *)
Theorem login_then_logout (USE_POSTGRES : bool)
  (check : string -> string -> bool) (srv : Server) (client : nat)
  (hash password : string) :
  admin (store srv) = [mkAdmin 1 "admin" hash] ->
  check hash password = true ->
  let events :=
    [FromClient client
       (PostAdminLogin (Some (mkLoginRequest (Some "admin") (Some password))));
     FromClient client GetAdminVerses;
     FromClient client PostAdminLogout;
     FromClient client GetAdminVerses;
     FromClient client GetAdminCheck] in
  fst (server.serve USE_POSTGRES check events srv)
  = [Json (mkResponse 200 (Message "Connexion réussie"));
     Json (mkResponse 200
             (VerseList (database.get_all_verses (store srv))
                (database.get_draw_stats (store srv))));
     SessionJson Success;
     Json app.unauthorized;
     SessionJson (LoggedIn false)]
  /\ store (snd (server.serve USE_POSTGRES check events srv)) = store srv
  /\ cookies (snd (server.serve USE_POSTGRES check events srv)) client
     = app.cleared.
Proof.
  intros Hadmin Hcheck events. unfold events.
  cbn [server.serve server.handle server.route].
  unfold app.admin_login.
  rewrite (verify_admin_one_row check "admin" password hash (store srv) Hadmin).
  rewrite Hcheck.
  cbn [String.eqb Ascii.eqb Bool.eqb andb Z.eqb cookies store
       server.set_cookie app.admin_logout app.admin_check fst snd].
  unfold server.set_cookie. rewrite !Nat.eqb_refl.
  cbn [app.logged_in sess_admin_logged_in app.cleared negb
       app.get_verses app.admin_check].
  repeat split.
Qed.

Lemma login_then_logout_witness :
  fst (server.serve false demo_check
         [FromClient 7
            (PostAdminLogin (Some (mkLoginRequest (Some "admin") (Some "admin123"))));
          FromClient 7 GetAdminVerses;
          FromClient 7 PostAdminLogout;
          FromClient 7 GetAdminVerses;
          FromClient 7 GetAdminCheck]
         (server.start demo_hash 1000))
  = [Json (mkResponse 200 (Message "Connexion réussie"));
     Json (mkResponse 200
             (VerseList (database.get_all_verses demo_start)
                (database.get_draw_stats demo_start)));
     SessionJson Success;
     Json app.unauthorized;
     SessionJson (LoggedIn false)].
Proof.
  refine (proj1 (login_then_logout false demo_check (server.start demo_hash 1000)
                   7 (demo_hash "admin123") "admin123" _ _)).
  - reflexivity.
  - reflexivity.
Defined.

(** ** Letter case and surrounding whitespace *)

(** X23.  Lower-casing never makes a valid email invalid.  An email that
    [is_valid_email] accepts is still accepted in lower case; so for an
    email that the draw endpoint lets through, what [draw_verse_for_user]
    takes as the identity is the lower-case form of the stripped email, and
    [is_valid_email] accepts it. *)
Theorem lower_case_keeps_validity (email raw : string) :
  (app.is_valid_email email = true ->
   app.is_valid_email (pystr.lower email) = true)
  /\ (app.is_valid_email (pystr.strip raw) = true ->
      database.normalize (pystr.strip raw) = pystr.lower (pystr.strip raw)
      /\ app.is_valid_email (database.normalize (pystr.strip raw)) = true).
Proof.
  split.
  - intros H. now rewrite is_valid_email_lower.
  - apply accepted_email_normalized.
Qed.

Lemma lower_case_keeps_validity_witness :
  app.is_valid_email (pystr.lower "Foo@Bar.COM") = true
  /\ database.normalize (pystr.strip " Foo@Bar.COM ")
     = pystr.lower (pystr.strip " Foo@Bar.COM ").
Proof.
  destruct (lower_case_keeps_validity "Foo@Bar.COM" " Foo@Bar.COM ") as [H1 H2].
  split.
  - apply H1. reflexivity.
  - apply H2. reflexivity.
Defined.

(** X24.  The identity of a draw is the normalized email.  Normalizing
    again, or after lower-casing or stripping, changes nothing, so the
    endpoint's strip and the lower-casing of the lookup are absorbed; and
    [draw_verse_for_user] depends on the email through its normalized form
    alone: two emails that normalize alike get the same result and leave
    the same store, all else equal. *)
Theorem draw_depends_on_normalized_email (USE_POSTGRES : bool)
  (email1 email2 : string) :
  database.normalize (database.normalize email1) = database.normalize email1
  /\ database.normalize (pystr.strip email1) = database.normalize email1
  /\ database.normalize (pystr.lower email1) = database.normalize email1
  /\ pystr.lower (database.normalize email1) = database.normalize email1
  /\ (database.normalize email1 = database.normalize email2 ->
      forall first last rnd now s,
        database.draw_verse_for_user USE_POSTGRES email1 first last rnd now s
        = database.draw_verse_for_user USE_POSTGRES email2 first last rnd now s).
Proof.
  split; [apply normalize_idem|]. split; [apply normalize_strip|].
  split; [unfold database.normalize; now rewrite lower_idem|].
  split; [apply lower_normalize|].
  intros H first last rnd now s.
  unfold database.draw_verse_for_user. now rewrite H.
Qed.

Lemma draw_depends_on_normalized_email_witness :
  database.draw_verse_for_user false " Foo@Bar.COM" None None 10 2000 demo_start
  = database.draw_verse_for_user false "foo@bar.com  " None None 10 2000 demo_start.
Proof.
  apply (proj2 (proj2 (proj2 (proj2
    (draw_depends_on_normalized_email false " Foo@Bar.COM" "foo@bar.com  "))))).
  reflexivity.
Defined.
